(** * Feed composition of the social-media backend (routes/feed.js)

    A shallow embedding of the three feed routes

      - [GET /api/feed]           (personalized feed),
      - [GET /api/feed/trending]  (trending feed),
      - [GET /api/feed/discover]  (discover feed),

    of the Mongoose models they read (models/Post.js and the user
    collection), and of the consumer of their pagination metadata
    ([fetchPosts] of the [Home] page).

    Conventions of the embedding.

      - An [ObjectId] is an integer; a [Date] is its number of
        milliseconds since the epoch, an integer.
      - JavaScript numbers that are integers in the source are integers
        here; the model covers magnitudes below 2^53, where a binary64
        number holds every integer exactly.
      - [limit * 0.7] is the binary64 product, rounded to nearest with
        ties to even, because [Math.floor] makes its rounding visible:
        [Math.floor(90 * 0.7)] is 62.
      - The scores [unifiedScore], [finalScore] and [discoveryScore] are
        computed in binary64, operation by operation as the source
        writes them, and compared as binary64 numbers.  A binary64
        number is written as the rational it denotes; an operation is
        the exact operation followed by rounding to 53 significant
        bits, to nearest, ties to even.  Dates are 64-bit numbers of
        milliseconds, those of the personalized route valid JavaScript
        dates, and array lengths are below 2^31: no operation on them
        overflows or underflows.  [$add] adds its operands from left
        to right.
      - [Array.prototype.sort] is stable.  The [$sort] stage and the
        cursor [sort] leave the order of documents with equal keys
        unspecified; here they keep the natural order of the collection.
      - Every [await] on the store is recorded, in order, next to the
        value it yields; a rejected promise yields no value and ends in
        the route's [catch] block (status 500). *)

From Stdlib Require Import List ZArith QArith Qround Qpower Qabs Lia Lqa Bool String.
From Stdlib Require Import Sorted Permutation SpecFloat.
Import ListNotations.

Local Open Scope Z_scope.

(* ================================================================== *)
(** * JavaScript primitives used by the routes *)
(* ================================================================== *)

Module JS.

(** [parseInt(s) || d]: the result of [parseInt] is [None] for [NaN];
    [NaN] and [0] are falsy, so both are replaced by the default. *)
Definition or_default (parsed : option Z) (d : Z) : Z :=
  match parsed with
  | None => d
  | Some z => if z =? 0 then d else z
  end.

(** The literal [0.7] denotes the binary64 number [m07 * 2^-53]
    (0x1.6666666666666p-1). *)
Definition m07 : Z := 6305039478318694.

(** Rounding of a positive integer to 53 significant bits, to nearest,
    ties to even; the result is again written as an integer. *)
Definition round53 (p : Z) : Z :=
  let s := Z.log2 p + 1 - 53 in
  if s <=? 0 then p
  else
    let q := Z.shiftr p s in
    let r := p - Z.shiftl q s in
    let half := Z.shiftl 1 (s - 1) in
    let q' := if (half <? r) || ((half =? r) && Z.odd q) then q + 1 else q in
    Z.shiftl q' s.

(** [n * 0.7] in binary64, as the exact rational it denotes. *)
Definition times_0_7 (n : Z) : Q :=
  (Z.sgn n * round53 (Z.abs n * m07)) # (2 ^ 53).

Definition Math_floor (x : Q) : Z := Qfloor x.

(** [Math.ceil(a / b)] for integers [a] and [b <> 0]. *)
Definition Math_ceil_div (a b : Z) : Z := Qceiling (inject_Z a / inject_Z b).

(** [Array.prototype.slice(start, end)]: a negative index counts from
    the end of the array, and both indices are clamped to the array. *)
Definition clamp_index (len i : Z) : Z :=
  if i <? 0 then Z.max (len + i) 0 else Z.min i len.

Definition slice {A : Type} (l : list A) (start stop : Z) : list A :=
  let len := Z.of_nat (List.length l) in
  let k := clamp_index len start in
  let final := clamp_index len stop in
  firstn (Z.to_nat (final - k)) (skipn (Z.to_nat k) l).

End JS.

(* ================================================================== *)
(** * Stable sorting *)
(* ================================================================== *)

(** [Array.prototype.sort] is stable, and the [$sort] stage is taken
    stable with respect to the natural order of the collection.  Both
    are the insertion sort below; [after x y] says that [x] has to be
    placed after [y]. *)
Section StableSort.
Context {A : Type}.
Variable after : A -> A -> bool.

Fixpoint insert (x : A) (l : list A) : list A :=
  match l with
  | [] => [x]
  | y :: l' => if after x y then y :: insert x l' else x :: l
  end.

Fixpoint stable_sort (l : list A) : list A :=
  match l with
  | [] => []
  | x :: l' => insert x (stable_sort l')
  end.

(** [ahead x y]: the sort may leave [x] in front of [y]. *)
Definition ahead (x y : A) : Prop := after x y = false.
End StableSort.

Definition Qlt_bool (x y : Q) : bool := negb (Qle_bool y x).

(** [arr.sort(comparefn)]: [a] moves behind [b] when [comparefn(a, b) > 0]. *)
Definition Array_sort {A : Type} (comparefn : A -> A -> Q) (l : list A) : list A :=
  stable_sort (fun a b => Qlt_bool 0 (comparefn a b)) l.

(* ================================================================== *)
(** * Binary64 arithmetic *)
(* ================================================================== *)

(** A JavaScript number, and a [double] of the aggregation pipeline, is
    a binary64 number; it is written here as the rational it denotes.
    An operation yields the exact result rounded to 53 significant bits,
    to nearest, ties to even. *)
Module Binary64.

(** [floor (log2 x)] for a positive [x]. *)
Definition ilog2 (x : Q) : Z :=
  let k := Z.log2 (Qnum x) - Z.log2 (Zpos (Qden x)) in
  if Qle_bool (2 ^ k) x then k else k - 1.

(** Rounding to the nearest integer, ties to even. *)
Definition rne (x : Q) : Z :=
  let f := Qfloor x in
  let r := (x - inject_Z f)%Q in
  if Qlt_bool r (1 # 2) then f
  else if Qlt_bool (1 # 2) r then f + 1
  else if Z.even f then f else f + 1.

(** Rounding to 53 significant bits. *)
Definition round (x : Q) : Q :=
  if Qeq_bool x 0 then 0%Q
  else
    let y := Qabs x in
    let e := ilog2 y - 52 in
    let m := rne (y / 2 ^ e) in
    Qred ((if Qlt_bool x 0 then - inject_Z m else inject_Z m) * 2 ^ e).

(** A decimal literal of the source denotes the nearest binary64
    number. *)
Definition literal (q : Q) : Q := round q.

(** The conversion of an integer (an array length, a [long]). *)
Definition of_int (z : Z) : Q := round (inject_Z z).

Definition mul (a b : Q) : Q := round (a * b).
Definition div (a b : Q) : Q := round (a / b).
Definition add (a b : Q) : Q := round (a + b).
Definition sub (a b : Q) : Q := round (a - b).

End Binary64.

(* ================================================================== *)
(** * Data model (models/Post.js and the user collection) *)
(* ================================================================== *)

Definition ObjectId := Z.
Definition Date := Z.

(** A comment of [commentSchema]; its text plays no part in the feeds. *)
Record Comment := mkComment {
  comment_user : ObjectId;
  comment_createdAt : Date
}.

(** A document of [postSchema].  The payload fields ([content],
    [images], [tags], [location], [updatedAt]) are carried through the
    routes untouched and are left out. *)
Record Post := mkPost {
  post_id : ObjectId;
  author : ObjectId;
  likes : list ObjectId;
  comments : list Comment;
  isPublic : bool;
  createdAt : Date
}.

(** The fields of a user document that the feeds read. *)
Record User := mkUser {
  user_id : ObjectId;
  following : list ObjectId;
  followers : list ObjectId
}.

(** The two collections, each in its natural order. *)
Record Store := mkStore {
  Posts : list Post;
  Users : list User
}.

(** What a request can observe: the store and the wall clock
    ([new Date()]). *)
Record Env := mkEnv {
  store : Store;
  clock : Date
}.

(** [req.user._id] and the two query parameters after [parseInt]. *)
Record Request := mkRequest {
  viewer : ObjectId;
  query_page : option Z;
  query_limit : option Z
}.

(** The JSON body of a successful answer. *)
Record Response (D : Type) := mkResponse {
  posts : list D;
  currentPage : Z;
  totalPages : Z;
  totalPosts : Z;
  feedType : string
}.

Arguments mkResponse {D}.
Arguments posts {D}.
Arguments currentPage {D}.
Arguments totalPages {D}.
Arguments totalPosts {D}.
Arguments feedType {D}.

(* ================================================================== *)
(** * Store calls and the [async] routes *)
(* ================================================================== *)

Inductive StoreCall :=
| User_findById (id : ObjectId)
| Post_find
| Post_aggregate
| Post_populate
| Post_countDocuments.

(** An [async] computation: the store calls it awaited, in order, and
    its value, [None] when an exception was thrown on the way. *)
Definition Async (A : Type) : Type := (list StoreCall * option A)%type.

Definition ret {A : Type} (a : A) : Async A := ([], Some a).

Definition throw {A : Type} : Async A := ([], None).

Definition bind {A B : Type} (m : Async A) (k : A -> Async B) : Async B :=
  match m with
  | (t, None) => (t, None)
  | (t, Some a) => let (t', r) := k a in (t ++ t', r)
  end.

(** [await] of a store call that answers [v]. *)
Definition await {A : Type} (c : StoreCall) (v : A) : Async A := ([c], Some v).

(** [await] of a store call that the store may reject. *)
Definition await_result {A : Type} (c : StoreCall) (v : option A) : Async A :=
  ([c], v).

Notation "x <- m ;; k" := (bind m (fun x => k))
  (at level 61, m at next level, right associativity).

Definition calls {A : Type} (m : Async A) : list StoreCall := fst m.
Definition answer {A : Type} (m : Async A) : option A := snd m.

(* ================================================================== *)
(** * MongoDB and Mongoose operations *)
(* ================================================================== *)

Module Mongo.

(** [$in] / [$nin] on identifiers. *)
Definition mem (x : ObjectId) (l : list ObjectId) : bool :=
  existsb (Z.eqb x) l.

Definition findById (users : list User) (id : ObjectId) : option User :=
  find (fun u => user_id u =? id) users.

(** Population of an array of user references: every reference is
    replaced by the document it names, and a reference that names no
    document is removed from the array. *)
Definition populate_users (users : list User) (refs : list ObjectId) : list User :=
  flat_map (fun r => match findById users r with
                     | Some u => [u]
                     | None => []
                     end) refs.

(** [populate('likes')] on a post: the length of [likes] afterwards is
    the number of references that resolve.  Population of [author] and
    of [comments.user] changes no field that the feeds read. *)
Definition populate (users : list User) (p : Post) : Post :=
  mkPost (post_id p) (author p)
         (map user_id (populate_users users (likes p)))
         (comments p) (isPublic p) (createdAt p).

(** [Query.limit(n)].  Mongoose hands [n] to the driver unchanged; for
    the [find] command a limit of 0 is equivalent to setting no limit,
    and a negative [n] asks for at most [|n|] documents in a single
    batch. *)
Definition cursor_limit {A : Type} (n : Z) (l : list A) : list A :=
  if n =? 0 then l else firstn (Z.to_nat (Z.abs n)) l.

(** The [$limit] stage; the store rejects a limit that is not positive. *)
Definition stage_limit {A : Type} (n : Z) (l : list A) : option (list A) :=
  if 0 <? n then Some (firstn (Z.to_nat n) l) else None.

(** The [$skip] stage; the store rejects a negative count. *)
Definition stage_skip {A : Type} (n : Z) (l : list A) : option (list A) :=
  if n <? 0 then None else Some (skipn (Z.to_nat n) l).

(** [$sort: { k: -1 }] on an integer key. *)
Definition sort_desc {A : Type} (k : A -> Z) (l : list A) : list A :=
  stable_sort (fun a b => k a <? k b) l.

(** [$sort: { k1: -1, k2: -1 }] on integer keys. *)
Definition sort_desc2 {A : Type} (k1 k2 : A -> Z) (l : list A) : list A :=
  stable_sort (fun a b => (k1 a <? k1 b) || ((k1 a =? k1 b) && (k2 a <? k2 b))) l.

(** [$sort: { k: -1 }] on a rational key. *)
Definition sort_descQ {A : Type} (k : A -> Q) (l : list A) : list A :=
  stable_sort (fun a b => Qlt_bool (k a) (k b)) l.

(** [$sort: { k1: -1, k2: -1 }], rational then integer key. *)
Definition sort_descQ2 {A : Type} (k1 : A -> Q) (k2 : A -> Z) (l : list A) : list A :=
  stable_sort (fun a b => Qlt_bool (k1 a) (k1 b)
                          || (Qeq_bool (k1 a) (k1 b) && (k2 a <? k2 b))) l.

(** [$setIntersection]: the distinct elements of [a] that occur in [b]. *)
Definition setIntersection (a b : list ObjectId) : list ObjectId :=
  nodup Z.eq_dec (filter (fun x => mem x b) a).

(** [$size] of an array; also [.length] of a JavaScript array. *)
Definition size {A : Type} (l : list A) : Z := Z.of_nat (List.length l).

End Mongo.

(* ================================================================== *)
(** * Documents produced by the queries of routes/feed.js *)
(* ================================================================== *)

(** A result of the [postsLikedByFollowing] pipeline: the post and the
    fields added by [$lookup] and [$addFields]. *)
Record LikedDoc := mkLikedDoc {
  liked_post : Post;
  likedByUsers : list User;
  likedByFollowing : Z
}.

(** A result of the [popularPosts] pipeline. *)
Record PopularDoc := mkPopularDoc {
  popular_post : Post;
  engagementScore : Z
}.

(** An element of [allPosts]: a document of [followingPosts], or a
    populated result of one of the two recommendation pipelines. *)
Inductive FeedDoc :=
| Followed (p : Post)
| Liked (d : LikedDoc)
| Popular (d : PopularDoc).

Definition doc_post (d : FeedDoc) : Post :=
  match d with
  | Followed p => p
  | Liked d => liked_post d
  | Popular d => popular_post d
  end.

Definition doc_id (d : FeedDoc) : ObjectId := post_id (doc_post d).

(** A result of the [trendingPosts] pipeline. *)
Record TrendingDoc := mkTrendingDoc {
  trending_post : Post;
  trending_engagementScore : Z;
  recencyBoost : Q;
  finalScore : Q
}.

(** A result of the [discoverPosts] pipeline. *)
Record DiscoverDoc := mkDiscoverDoc {
  discover_post : Post;
  authorData : list User;
  authorFollowers : list ObjectId;
  discoveryScore : Q
}.

(** [Post.populate] on the results of a pipeline. *)
Definition populate_liked (users : list User) (d : LikedDoc) : LikedDoc :=
  mkLikedDoc (Mongo.populate users (liked_post d)) (likedByUsers d) (likedByFollowing d).

Definition populate_popular (users : list User) (d : PopularDoc) : PopularDoc :=
  mkPopularDoc (Mongo.populate users (popular_post d)) (engagementScore d).

Definition populate_trending (users : list User) (d : TrendingDoc) : TrendingDoc :=
  mkTrendingDoc (Mongo.populate users (trending_post d))
                (trending_engagementScore d) (recencyBoost d) (finalScore d).

Definition populate_discover (users : list User) (d : DiscoverDoc) : DiscoverDoc :=
  mkDiscoverDoc (Mongo.populate users (discover_post d))
                (authorData d) (authorFollowers d) (discoveryScore d).

(* ================================================================== *)
(** * GET /api/feed *)
(* ================================================================== *)

(** [Post.find({ author: { $in: followingIds }, isPublic: true })
      .sort({ createdAt: -1 }).limit(followingPostsCount).populate(...)] *)
Definition find_followingPosts (st : Store) (followingIds : list ObjectId)
    (followingPostsCount : Z) : list FeedDoc :=
  map (fun p => Followed (Mongo.populate (Users st) p))
      (Mongo.cursor_limit followingPostsCount
         (Mongo.sort_desc createdAt
            (filter (fun p => Mongo.mem (author p) followingIds && isPublic p)
                    (Posts st)))).

(** The first [$match] of both recommendation pipelines:
    [{ _id: { $nin: excluded },
       author: { $nin: [req.user._id, ...followingIds] },
       isPublic: true }] *)
Definition match_recommendable (me : ObjectId) (followingIds excluded : list ObjectId)
    (p : Post) : bool :=
  negb (Mongo.mem (post_id p) excluded)
  && negb (Mongo.mem (author p) (me :: followingIds))
  && isPublic p.

(** The [$lookup] and [$addFields] stages of [postsLikedByFollowing]. *)
Definition add_likedByFollowing (users : list User) (followingIds : list ObjectId)
    (p : Post) : LikedDoc :=
  let likedByUsers := filter (fun u => Mongo.mem (user_id u) (likes p)) users in
  mkLikedDoc p likedByUsers
    (Mongo.size (Mongo.setIntersection (map user_id likedByUsers) followingIds)).

(** The [postsLikedByFollowing] pipeline. *)
Definition aggregate_postsLikedByFollowing (st : Store) (me : ObjectId)
    (followingIds excluded : list ObjectId) (recommendedPostsCount : Z)
    : option (list LikedDoc) :=
  Mongo.stage_limit recommendedPostsCount
    (Mongo.sort_desc2 likedByFollowing (fun d => createdAt (liked_post d))
       (filter (fun d => 0 <? likedByFollowing d)
          (map (add_likedByFollowing (Users st) followingIds)
             (filter (match_recommendable me followingIds excluded) (Posts st))))).

(** [likes.length + comments.length * 2], the engagement of a post. *)
Definition engagement (p : Post) : Z :=
  Mongo.size (likes p) + Mongo.size (comments p) * 2.

(** The [popularPosts] pipeline. *)
Definition aggregate_popularPosts (st : Store) (me : ObjectId)
    (followingIds excluded : list ObjectId) (remainingCount : Z)
    : option (list PopularDoc) :=
  Mongo.stage_limit remainingCount
    (Mongo.sort_desc2 engagementScore (fun d => createdAt (popular_post d))
       (map (fun p => mkPopularDoc p (engagement p))
          (filter (match_recommendable me followingIds excluded) (Posts st)))).

(** The score of the final [allPosts.sort], in binary64:
    [(likes.length + comments.length * 2) * 0.3
       + (new Date(createdAt).getTime() / 1000000) * 0.7] *)
Definition recencyFactor (t : Date) : Q :=
  Binary64.div (Binary64.of_int t) (Binary64.of_int 1000000).

Definition unifiedScore (p : Post) : Q :=
  Binary64.add
    (Binary64.mul (Binary64.of_int (engagement p)) (Binary64.literal (3 # 10)))
    (Binary64.mul (recencyFactor (createdAt p)) (Binary64.literal (7 # 10))).

(** The comparator of [allPosts.sort]: [bScore - aScore]. *)
Definition comparefn (a b : FeedDoc) : Q :=
  Binary64.sub (unifiedScore (doc_post b)) (unifiedScore (doc_post a)).

(** Lines 21 to 127 of the route: [followingPosts], then
    [recommendedPosts], then their concatenation [allPosts]. *)
Definition build_allPosts (st : Store) (me : ObjectId) (followingIds : list ObjectId)
    (limit : Z) : Async (list FeedDoc) :=
  let followingPostsCount := JS.Math_floor (JS.times_0_7 limit) in
  followingPosts <- await Post_find
                      (find_followingPosts st followingIds followingPostsCount) ;;
  let recommendedPostsCount := limit - Mongo.size followingPosts in
  recommendedPosts <-
    (if 0 <? recommendedPostsCount then
       postsLikedByFollowing <-
         await_result Post_aggregate
           (aggregate_postsLikedByFollowing st me followingIds
              (map doc_id followingPosts) recommendedPostsCount) ;;
       recommendedPosts <-
         (if 0 <? Mongo.size postsLikedByFollowing then
            await Post_populate
              (map (fun d => Liked (populate_liked (Users st) d)) postsLikedByFollowing)
          else ret []) ;;
       if Mongo.size recommendedPosts <? recommendedPostsCount then
         let remainingCount := recommendedPostsCount - Mongo.size recommendedPosts in
         popularPosts <-
           await_result Post_aggregate
             (aggregate_popularPosts st me followingIds
                (map doc_id followingPosts ++ map doc_id recommendedPosts)
                remainingCount) ;;
         if 0 <? Mongo.size popularPosts then
           populatedPopularPosts <-
             await Post_populate
               (map (fun d => Popular (populate_popular (Users st) d)) popularPosts) ;;
           ret (recommendedPosts ++ populatedPopularPosts)
         else ret recommendedPosts
       else ret recommendedPosts
     else ret []) ;;
  ret (followingPosts ++ recommendedPosts).

(** The route [router.get('/', auth, ...)]. *)
Definition getPersonalizedFeed (env : Env) (req : Request) : Async (Response FeedDoc) :=
  let st := store env in
  let page := JS.or_default (query_page req) 1 in
  let limit := JS.or_default (query_limit req) 10 in
  let skip := (page - 1) * limit in
  user <- await (User_findById (viewer req)) (Mongo.findById (Users st) (viewer req)) ;;
  match user with
  | None => throw
  | Some user =>
      let followingIds :=
        map user_id (Mongo.populate_users (Users st) (following user)) in
      allPosts <- build_allPosts st (viewer req) followingIds limit ;;
      let sorted := Array_sort comparefn allPosts in
      let paginatedPosts := JS.slice sorted skip (skip + limit) in
      let total := Mongo.size sorted in
      ret (mkResponse paginatedPosts page (JS.Math_ceil_div total limit) total
                      "personalized")
  end.

(* ================================================================== *)
(** * GET /api/feed/trending *)
(* ================================================================== *)

(** Milliseconds in a day: [1000 * 60 * 60 * 24]. *)
Definition day_ms : Z := 1000 * 60 * 60 * 24.

(** The two [$addFields] stages of [trendingPosts]; [now] is the value
    of [new Date()] when the pipeline is built.  [$subtract] of two
    dates is a [long]; [$divide] and [$multiply] by a [double] yield a
    [double]. *)
Definition add_finalScore (now : Date) (p : Post) : TrendingDoc :=
  let engagementScore := engagement p in
  let recencyBoost :=
    Binary64.div (Binary64.of_int (now - createdAt p)) (Binary64.of_int day_ms) in
  mkTrendingDoc p engagementScore recencyBoost
    (Binary64.add
       (Binary64.mul (Binary64.of_int engagementScore) (Binary64.literal (8 # 10)))
       (Binary64.mul recencyBoost (Binary64.literal (2 # 10)))).

(** The [trendingPosts] pipeline. *)
Definition rank_trending (st : Store) (now : Date) : list TrendingDoc :=
  Mongo.sort_descQ finalScore
    (map (add_finalScore now) (filter isPublic (Posts st))).

Definition aggregate_trendingPosts (st : Store) (now : Date) (skip limit : Z)
    : option (list TrendingDoc) :=
  match Mongo.stage_skip skip (rank_trending st now) with
  | None => None
  | Some l => Mongo.stage_limit limit l
  end.

(** The route [router.get('/trending', auth, ...)]. *)
Definition getTrendingFeed (env : Env) (req : Request) : Async (Response TrendingDoc) :=
  let st := store env in
  let page := JS.or_default (query_page req) 1 in
  let limit := JS.or_default (query_limit req) 10 in
  let skip := (page - 1) * limit in
  trendingPosts <- await_result Post_aggregate
                     (aggregate_trendingPosts st (clock env) skip limit) ;;
  populatedPosts <- await Post_populate
                      (map (populate_trending (Users st)) trendingPosts) ;;
  total <- await Post_countDocuments (Mongo.size (filter isPublic (Posts st))) ;;
  ret (mkResponse populatedPosts page (JS.Math_ceil_div total limit) total
                  "trending").

(* ================================================================== *)
(** * GET /api/feed/discover *)
(* ================================================================== *)

(** [{ author: { $nin: [req.user._id, ...followingIds] }, isPublic: true }] *)
Definition match_discoverable (me : ObjectId) (followingIds : list ObjectId)
    (p : Post) : bool :=
  negb (Mongo.mem (author p) (me :: followingIds)) && isPublic p.

(** The [$lookup] and the two [$addFields] stages of [discoverPosts].
    [authorFollowers] is the [followers] array of the first author
    document; when there is none the field is missing and [$size]
    fails. *)
Definition add_discoveryScore (users : list User) (p : Post) : option DiscoverDoc :=
  let authorData := filter (fun u => user_id u =? author p) users in
  match nth_error (map followers authorData) 0 with
  | None => None
  | Some authorFollowers =>
      Some (mkDiscoverDoc p authorData authorFollowers
              (Binary64.add
                 (Binary64.add
                    (Binary64.mul (Binary64.of_int (Mongo.size (likes p)))
                                  (Binary64.literal (4 # 10)))
                    (Binary64.mul (Binary64.of_int (Mongo.size (comments p)))
                                  (Binary64.literal (3 # 10))))
                 (Binary64.mul (Binary64.of_int (Mongo.size authorFollowers))
                               (Binary64.literal (3 # 10)))))
  end.

(** A stage that can fail on a document fails the pipeline. *)
Fixpoint for_each {A B : Type} (f : A -> option B) (l : list A) : option (list B) :=
  match l with
  | [] => Some []
  | x :: l' =>
      match f x, for_each f l' with
      | Some y, Some ys => Some (y :: ys)
      | _, _ => None
      end
  end.

(** The [discoverPosts] pipeline. *)
Definition aggregate_discoverPosts (st : Store) (me : ObjectId)
    (followingIds : list ObjectId) (skip limit : Z) : option (list DiscoverDoc) :=
  match for_each (add_discoveryScore (Users st))
                 (filter (match_discoverable me followingIds) (Posts st)) with
  | None => None
  | Some scored =>
      match Mongo.stage_skip skip
              (Mongo.sort_descQ2 discoveryScore
                 (fun d => createdAt (discover_post d)) scored) with
      | None => None
      | Some l => Mongo.stage_limit limit l
      end
  end.

(** The route [router.get('/discover', auth, ...)]. *)
Definition getDiscoverFeed (env : Env) (req : Request) : Async (Response DiscoverDoc) :=
  let st := store env in
  let page := JS.or_default (query_page req) 1 in
  let limit := JS.or_default (query_limit req) 10 in
  let skip := (page - 1) * limit in
  user <- await (User_findById (viewer req)) (Mongo.findById (Users st) (viewer req)) ;;
  match user with
  | None => throw
  | Some user =>
      let followingIds := following user in
      discoverPosts <- await_result Post_aggregate
                         (aggregate_discoverPosts st (viewer req) followingIds
                            skip limit) ;;
      populatedPosts <- await Post_populate
                          (map (populate_discover (Users st)) discoverPosts) ;;
      total <- await Post_countDocuments
                 (Mongo.size (filter (match_discoverable (viewer req) followingIds)
                                     (Posts st))) ;;
      ret (mkResponse populatedPosts page (JS.Math_ceil_div total limit) total
                      "discover")
  end.

(* ================================================================== *)
(** * The consumer of the pagination metadata *)
(* ================================================================== *)

(** [setHasMore(page < totalPages)] in [fetchPosts] of the [Home] page. *)
Definition hasMore {D : Type} (page : Z) (r : Response D) : bool :=
  page <? totalPages r.

(* ================================================================== *)
(** * Views of the pipelines without their pagination stages *)
(* ================================================================== *)

(** [postsLikedByFollowing] before its [$limit]. *)
Definition rank_liked (st : Store) (me : ObjectId)
    (followingIds excluded : list ObjectId) : list LikedDoc :=
  Mongo.sort_desc2 likedByFollowing (fun d => createdAt (liked_post d))
    (filter (fun d => 0 <? likedByFollowing d)
       (map (add_likedByFollowing (Users st) followingIds)
          (filter (match_recommendable me followingIds excluded) (Posts st)))).

(** [popularPosts] before its [$limit]. *)
Definition rank_popular (st : Store) (me : ObjectId)
    (followingIds excluded : list ObjectId) : list PopularDoc :=
  Mongo.sort_desc2 engagementScore (fun d => createdAt (popular_post d))
    (map (fun p => mkPopularDoc p (engagement p))
       (filter (match_recommendable me followingIds excluded) (Posts st))).

(** The populated results of [postsLikedByFollowing]. *)
Definition liked_part (st : Store) (me : ObjectId) (followingIds : list ObjectId)
    (followingPosts : list FeedDoc) (n : Z) : list FeedDoc :=
  map (fun d => Liked (populate_liked (Users st) d))
      (firstn (Z.to_nat n)
              (rank_liked st me followingIds (map doc_id followingPosts))).

(** The populated results of [popularPosts]. *)
Definition popular_part (st : Store) (me : ObjectId) (followingIds : list ObjectId)
    (followingPosts liked : list FeedDoc) (remainingCount : Z) : list FeedDoc :=
  map (fun d => Popular (populate_popular (Users st) d))
      (firstn (Z.to_nat remainingCount)
              (rank_popular st me followingIds
                 (map doc_id followingPosts ++ map doc_id liked))).

(** [recommendedPosts] as a function of [followingPosts] and of
    [recommendedPostsCount]. *)
Definition recommended (st : Store) (me : ObjectId) (followingIds : list ObjectId)
    (followingPosts : list FeedDoc) (n : Z) : list FeedDoc :=
  if 0 <? n then
    let liked := liked_part st me followingIds followingPosts n in
    if Mongo.size liked <? n then
      liked ++ popular_part st me followingIds followingPosts liked
                 (n - Mongo.size liked)
    else liked
  else [].

(** [followingPostsCount]. *)
Definition graphSlots (limit : Z) : Z := JS.Math_floor (JS.times_0_7 limit).

(** [followingIds] of the personalized route. *)
Definition followingIds_of (st : Store) (user : User) : list ObjectId :=
  map user_id (Mongo.populate_users (Users st) (following user)).

(** [allPosts] before the final sort. *)
Definition candidates (st : Store) (me : ObjectId) (followingIds : list ObjectId)
    (limit : Z) : list FeedDoc :=
  let followingPosts := find_followingPosts st followingIds (graphSlots limit) in
  followingPosts
    ++ recommended st me followingIds followingPosts
         (limit - Mongo.size followingPosts).

(** [by_score score a b]: [a] scores at least as much as [b]. *)
Definition by_score {A : Type} (score : A -> Q) (a b : A) : Prop :=
  (score b <= score a)%Q.

(** [by_keys k1 k2 a b]: [a] is ahead of [b] for [{ k1: -1, k2: -1 }]. *)
Definition by_keys {A : Type} (k1 k2 : A -> Z) (a b : A) : Prop :=
  k1 b < k1 a \/ (k1 b = k1 a /\ k2 b <= k2 a).

(** The virtuals [likeCount] and [commentCount] of models/Post.js. *)
Definition likeCount (p : Post) : Z := Z.of_nat (List.length (likes p)).
Definition commentCount (p : Post) : Z := Z.of_nat (List.length (comments p)).

(** The posts of a store have pairwise distinct [_id]s. *)
Definition unique_ids (st : Store) : Prop := NoDup (map post_id (Posts st)).

(** Every reference to a user in [refs] names a user document. *)
Definition resolvable (st : Store) (refs : list ObjectId) : Prop :=
  forall r, In r refs -> exists u, In u (Users st) /\ user_id u = r.

(* ================================================================== *)
(** * Views used to state the properties *)
(* ================================================================== *)

(** The page metadata of a trending answer and the number of its items. *)
Definition trending_meta (r : Response TrendingDoc) : Z * Z * Z * Z * string :=
  (Mongo.size (posts r), currentPage r, totalPages r, totalPosts r, feedType r).


Definition finalScore_exact (now : Date) (p : Post) : Q :=
  ((8 # 10) * inject_Z (likeCount p + 2 * commentCount p)
   + (2 # 10) * (inject_Z (now - createdAt p) / inject_Z day_ms))%Q.

(** A graph-origin item is sourced because its author is followed; it
    is a document of [followingPosts].  A recommended item is a result
    of one of the two recommendation pipelines. *)
Definition graph_origin (d : FeedDoc) : bool :=
  match d with
  | Followed _ => true
  | _ => false
  end.

Definition recommended_origin (d : FeedDoc) : bool := negb (graph_origin d).

(** The eligible followed-authored items: the public posts of followed
    authors. *)
Definition eligible_followed (st : Store) (followingIds : list ObjectId) : list Post :=
  filter (fun p => Mongo.mem (author p) followingIds && isPublic p) (Posts st).

(** The eligible recommended items: the public posts authored neither
    by the viewer nor by a followed author. *)
Definition eligible_recommended (st : Store) (me : ObjectId)
    (followingIds : list ObjectId) : list Post :=
  filter (match_recommendable me followingIds []) (Posts st).

(** The same product computed by the binary64 multiplication of the
    standard library's specification of IEEE 754 arithmetic. *)
Definition times_0_7_SpecFloat (n : positive) : Q :=
  match SFmul 53 1024 (S754_finite false n 0) (S754_finite false 6305039478318694 (-53)) with
  | S754_finite false m e =>
      if e <? 0 then Z.pos m # (2 ^ Z.to_pos (- e))
      else inject_Z (Z.pos m * 2 ^ e)
  | _ => 0
  end.

(** The three scores computed by the binary64 operations of the
    standard library's specification of IEEE 754 arithmetic. *)
Definition SF64_of_Z (z : Z) : spec_float := binary_normalize 53 1024 z 0 false.

Definition SF64_literal (q : Q) : spec_float :=
  SFdiv 53 1024 (SF64_of_Z (Qnum q)) (SF64_of_Z (Z.pos (Qden q))).

Definition SF64_to_Q (f : spec_float) : Q :=
  match f with
  | S754_finite s m e => Qred (inject_Z (if s then Z.neg m else Z.pos m) * 2 ^ e)
  | _ => 0
  end.

Definition unifiedScore_SpecFloat (p : Post) : spec_float :=
  SFadd 53 1024
    (SFmul 53 1024 (SF64_of_Z (engagement p)) (SF64_literal (3 # 10)))
    (SFmul 53 1024
       (SFdiv 53 1024 (SF64_of_Z (createdAt p)) (SF64_of_Z 1000000))
       (SF64_literal (7 # 10))).

Definition finalScore_SpecFloat (now : Date) (p : Post) : spec_float :=
  SFadd 53 1024
    (SFmul 53 1024 (SF64_of_Z (engagement p)) (SF64_literal (8 # 10)))
    (SFmul 53 1024
       (SFdiv 53 1024 (SF64_of_Z (now - createdAt p)) (SF64_of_Z day_ms))
       (SF64_literal (2 # 10))).

Definition discoveryScore_SpecFloat (likes comments authorFollowers : Z)
    : spec_float :=
  SFadd 53 1024
    (SFadd 53 1024
       (SFmul 53 1024 (SF64_of_Z likes) (SF64_literal (4 # 10)))
       (SFmul 53 1024 (SF64_of_Z comments) (SF64_literal (3 # 10))))
    (SFmul 53 1024 (SF64_of_Z authorFollowers) (SF64_literal (3 # 10))).

(* ================================================================== *)
(** * A small store used to exercise the routes *)
(* ================================================================== *)

Module Sample.

(** User 1 follows users 2 and 3; users 4 and 5 are strangers to 1. *)
Definition users : list User :=
  [ mkUser 1 [2; 3] [];
    mkUser 2 [] [1];
    mkUser 3 [] [1];
    mkUser 4 [] [];
    mkUser 5 [] [] ].

Definition posts : list Post :=
  [ mkPost 101 2 [1] [] true 1000000;
    mkPost 102 2 [] [] true 2000000;
    mkPost 103 3 [1; 2] [mkComment 1 3500000] true 3000000;
    mkPost 104 4 [2; 3] [] true 4000000;
    mkPost 105 5 [2] [] true 5000000;
    mkPost 106 5 [] [mkComment 4 6500000; mkComment 4 6600000] true 6000000;
    mkPost 107 4 [2] [] false 7000000;
    mkPost 108 1 [] [] true 8000000 ].

Definition st : Store := mkStore posts users.

Definition env : Env := mkEnv st 86400000.

(** [?page=1&limit=10] from user 1. *)
Definition req : Request := mkRequest 1 (Some 1) (Some 10).

End Sample.

(** The posts A and B of the scenario, one day old at the time of the
    call: A has 10 likes and no comment, B has 2 likes and 5 comments. *)
Module Scenario.

Definition users : list User :=
  map (fun i => mkUser i [] []) [7; 8; 11; 12; 13; 14; 15; 16; 17; 18; 19; 20].

Definition A : Post :=
  mkPost 1 7 [11; 12; 13; 14; 15; 16; 17; 18; 19; 20] [] true 0.

Definition B : Post :=
  mkPost 2 8 [11; 12]
    [mkComment 11 10; mkComment 12 20; mkComment 13 30; mkComment 14 40;
     mkComment 15 50]
    true 0.

Definition env : Env := mkEnv (mkStore [A; B] users) 86400000.

End Scenario.

(** Stores on which the rounding of the scores decides the order. *)
Module Rounding.

Definition users : list User :=
  [ mkUser 1 [2] []; mkUser 2 [] [1]; mkUser 3 [] [] ].

(** [?page=1&limit=10] from user 1. *)
Definition req : Request := mkRequest 1 (Some 1) (Some 10).

(** Two posts of user 2, whom user 1 follows: X has one like, Y has two
    likes and is 428571 ms older. *)
Definition X : Post := mkPost 201 2 [1] [] true 6073822180848335.
Definition Y : Post := mkPost 202 2 [1; 3] [] true 6073822180419764.


(** Two old posts: P has one like, R has three likes and is 691199999 ms
    younger. *)
Definition P : Post := mkPost 301 2 [1] [] true (-7874376077281081).
Definition R : Post := mkPost 302 2 [1; 2; 3] [] true (-7874375386081082).


(** A post with one like, created on day 4, and a post without likes,
    created on day 0. *)
Definition F : Post := mkPost 701 2 [1] [] true 345600000.
Definition G : Post := mkPost 702 3 [] [] true 0.

Definition flip_store : Store := mkStore [F; G] users.

End Rounding.

(* ================================================================== *)
(** * Facts about the [async] computations *)
(* ================================================================== *)

Lemma answer_bind {A B : Type} (m : Async A) (k : A -> Async B) :
  answer (bind m k) =
  match answer m with
  | Some a => answer (k a)
  | None => None
  end.
Proof.
  destruct m as [t [a|]]; simpl; [destruct (k a); reflexivity | reflexivity].
Qed.

Lemma calls_bind {A B : Type} (m : Async A) (k : A -> Async B) :
  calls (bind m k) =
  match answer m with
  | Some a => calls m ++ calls (k a)
  | None => calls m
  end.
Proof.
  destruct m as [t [a|]]; simpl; [destruct (k a); reflexivity | reflexivity].
Qed.

Lemma calls_bind_first {A B : Type} (m : Async A) (k : A -> Async B) :
  calls m <> [] -> calls (bind m k) <> [].
Proof.
  intros Hm. rewrite calls_bind. destruct (answer m); auto.
  intros H. apply app_eq_nil in H. tauto.
Qed.

(* ================================================================== *)
(** * Facts about stable sorting *)
(* ================================================================== *)

Section StableSortFacts.
Context {A : Type}.
Variable after : A -> A -> bool.

Lemma insert_perm (x : A) (l : list A) :
  Permutation (insert after x l) (x :: l).
Proof.
  induction l as [|y l IH]; simpl.
  - apply Permutation_refl.
  - destruct (after x y).
    + eapply perm_trans; [apply perm_skip, IH | apply perm_swap].
    + apply Permutation_refl.
Qed.

Lemma stable_sort_perm (l : list A) : Permutation (stable_sort after l) l.
Proof.
  induction l as [|x l IH]; simpl.
  - apply perm_nil.
  - eapply perm_trans; [apply insert_perm | apply perm_skip, IH].
Qed.

Lemma stable_sort_In (l : list A) (x : A) :
  In x (stable_sort after l) <-> In x l.
Proof.
  split; apply Permutation_in;
    [apply stable_sort_perm | apply Permutation_sym, stable_sort_perm].
Qed.

Lemma stable_sort_length (l : list A) :
  List.length (stable_sort after l) = List.length l.
Proof. apply Permutation_length, stable_sort_perm. Qed.

Hypothesis after_asym : forall x y, after x y = true -> after y x = false.
Hypothesis ahead_trans : forall x y z, ahead after x y -> ahead after y z -> ahead after x z.

Lemma insert_sorted (x : A) (l : list A) :
  StronglySorted (ahead after) l -> StronglySorted (ahead after) (insert after x l).
Proof.
  induction 1 as [|y l Hl IH Hy]; simpl.
  - constructor; constructor.
  - destruct (after x y) eqn:E.
    + constructor; [exact IH|].
      rewrite Forall_forall in *. intros z Hz.
      apply (Permutation_in _ (insert_perm x l)) in Hz.
      destruct Hz as [<-|Hz]; [apply after_asym, E | apply Hy, Hz].
    + constructor; [constructor; assumption|].
      constructor; [exact E|].
      rewrite Forall_forall in *. intros z Hz.
      apply ahead_trans with y; [exact E | apply Hy, Hz].
Qed.

Lemma stable_sort_sorted (l : list A) : StronglySorted (ahead after) (stable_sort after l).
Proof.
  induction l as [|x l IH]; simpl; [constructor | apply insert_sorted, IH].
Qed.
End StableSortFacts.

(** Sub-lists cut out by [firstn] and [skipn]. *)
Lemma In_firstn {A : Type} (n : nat) (l : list A) (x : A) :
  In x (firstn n l) -> In x l.
Proof.
  intros H. rewrite <- (firstn_skipn n l). apply in_or_app. left. exact H.
Qed.

Lemma In_skipn {A : Type} (n : nat) (l : list A) (x : A) :
  In x (skipn n l) -> In x l.
Proof.
  intros H. rewrite <- (firstn_skipn n l). apply in_or_app. right. exact H.
Qed.


Lemma StronglySorted_firstn {A : Type} (R : A -> A -> Prop) (n : nat) (l : list A) :
  StronglySorted R l -> StronglySorted R (firstn n l).
Proof.
  revert l; induction n as [|n IH]; intros l H; simpl; [constructor|].
  destruct l as [|x l]; [constructor|].
  inversion H as [|? ? Hl Hx]; subst.
  constructor; [apply IH, Hl|].
  rewrite Forall_forall in *. intros y Hy. apply Hx.
  apply (In_firstn n), Hy.
Qed.

Lemma NoDup_firstn {A : Type} (n : nat) (l : list A) :
  NoDup l -> NoDup (firstn n l).
Proof.
  intros H. rewrite <- (firstn_skipn n l) in H.
  apply NoDup_app_remove_r in H. exact H.
Qed.

Lemma NoDup_skipn {A : Type} (n : nat) (l : list A) :
  NoDup l -> NoDup (skipn n l).
Proof.
  intros H. rewrite <- (firstn_skipn n l) in H.
  apply NoDup_app_remove_l in H. exact H.
Qed.

(** In a strongly sorted list an earlier position is related to every
    later one. *)
Lemma StronglySorted_nth {A : Type} (R : A -> A -> Prop) (l : list A) :
  StronglySorted R l ->
  forall i j a b, (i < j)%nat ->
    nth_error l i = Some a -> nth_error l j = Some b -> R a b.
Proof.
  induction 1 as [|x l Hl IH Hx]; intros i j a b Hij Ha Hb.
  - destruct i; discriminate.
  - destruct j as [|j]; [lia|].
    destruct i as [|i]; simpl in *.
    + injection Ha as <-. rewrite Forall_forall in Hx.
      apply Hx. eapply nth_error_In; eassumption.
    + apply (IH i j); [lia | assumption | assumption].
Qed.

(* ================================================================== *)
(** * Facts about [Array.prototype.slice] *)
(* ================================================================== *)

Lemma slice_In {A : Type} (l : list A) (a b : Z) (x : A) :
  In x (JS.slice l a b) -> In x l.
Proof.
  unfold JS.slice. intros H. apply In_firstn in H. apply In_skipn in H. exact H.
Qed.


Lemma slice_map {A B : Type} (f : A -> B) (l : list A) (a b : Z) :
  map f (JS.slice l a b) = JS.slice (map f l) a b.
Proof.
  unfold JS.slice. rewrite length_map, skipn_map, firstn_map. reflexivity.
Qed.

Lemma slice_NoDup {A : Type} (l : list A) (a b : Z) :
  NoDup l -> NoDup (JS.slice l a b).
Proof.
  intros H. unfold JS.slice. apply NoDup_firstn, NoDup_skipn, H.
Qed.

(** With a start inside [0, stop], [slice] is [skipn] then [firstn]. *)
Lemma slice_nonneg {A : Type} (l : list A) (a b : Z) :
  0 <= a <= b ->
  JS.slice l a b = firstn (Z.to_nat (b - a)) (skipn (Z.to_nat a) l).
Proof.
  intros Hab. unfold JS.slice, JS.clamp_index.
  destruct (a <? 0) eqn:Ea; [apply Z.ltb_lt in Ea; lia|].
  destruct (b <? 0) eqn:Eb; [apply Z.ltb_lt in Eb; lia|].
  set (len := Z.of_nat (List.length l)).
  destruct (Z.le_gt_cases len a) as [Hlen|Hlen].
  - rewrite (Z.min_r a len) by lia.
    rewrite !skipn_all2 by lia. rewrite !firstn_nil. reflexivity.
  - rewrite (Z.min_l a len) by lia.
    destruct (Z.le_gt_cases len b) as [Hb|Hb].
    + rewrite (Z.min_r b len) by lia.
      rewrite !firstn_all2; [reflexivity | |]; rewrite length_skipn; lia.
    + rewrite (Z.min_l b len) by lia. reflexivity.
Qed.

(** A start at or beyond the end of the array gives the empty slice. *)
Lemma slice_beyond {A : Type} (l : list A) (a b : Z) :
  Z.of_nat (List.length l) <= a -> JS.slice l a b = [].
Proof.
  intros Ha. unfold JS.slice, JS.clamp_index.
  destruct (a <? 0) eqn:Ea; [apply Z.ltb_lt in Ea; lia|].
  rewrite (Z.min_r a) by lia.
  rewrite skipn_all2 by lia. apply firstn_nil.
Qed.

(* ================================================================== *)
(** * The answer of the personalized route *)
(* ================================================================== *)

Lemma stage_limit_pos {A : Type} (n : Z) (l : list A) :
  0 < n -> Mongo.stage_limit n l = Some (firstn (Z.to_nat n) l).
Proof.
  intros H. unfold Mongo.stage_limit.
  destruct (0 <? n) eqn:E; [reflexivity | apply Z.ltb_ge in E; lia].
Qed.

Lemma size_nil_iff {A : Type} (l : list A) :
  (0 <? Mongo.size l) = false -> l = [].
Proof.
  unfold Mongo.size. intros H. apply Z.ltb_ge in H.
  destruct l; [reflexivity | simpl in H; lia].
Qed.

Lemma build_allPosts_answer (st : Store) (me : ObjectId)
    (followingIds : list ObjectId) (limit : Z) :
  answer (build_allPosts st me followingIds limit)
  = Some (candidates st me followingIds limit).
Proof.
  unfold build_allPosts, candidates, graphSlots.
  set (fp := find_followingPosts st followingIds _).
  rewrite answer_bind. cbn [answer await snd].
  rewrite answer_bind.
  unfold recommended, liked_part, popular_part.
  destruct (0 <? limit - Mongo.size fp) eqn:En; [|reflexivity].
  apply Z.ltb_lt in En.
  rewrite answer_bind.
  unfold aggregate_postsLikedByFollowing. fold (rank_liked st me followingIds (map doc_id fp)).
  rewrite stage_limit_pos by exact En. cbn [answer await_result snd].
  set (lk := firstn _ (rank_liked _ _ _ _)).
  rewrite answer_bind.
  assert (Hrec : answer
            (if 0 <? Mongo.size lk
             then await Post_populate
                    (map (fun d => Liked (populate_liked (Users st) d)) lk)
             else ret [])
          = Some (map (fun d => Liked (populate_liked (Users st) d)) lk)).
  { destruct (0 <? Mongo.size lk) eqn:E; [reflexivity|].
    apply size_nil_iff in E. rewrite E. reflexivity. }
  rewrite Hrec. clear Hrec.
  set (rp := map (fun d => Liked (populate_liked (Users st) d)) lk).
  destruct (Mongo.size rp <? limit - Mongo.size fp) eqn:Er; [|reflexivity].
  apply Z.ltb_lt in Er.
  rewrite answer_bind.
  unfold aggregate_popularPosts.
  fold (rank_popular st me followingIds (map doc_id fp ++ map doc_id rp)).
  rewrite stage_limit_pos by lia. cbn [answer await_result snd].
  set (pp := firstn _ (rank_popular _ _ _ _)).
  destruct (0 <? Mongo.size pp) eqn:E.
  - reflexivity.
  - apply size_nil_iff in E. rewrite E. simpl. rewrite app_nil_r. reflexivity.
Qed.

Lemma getPersonalizedFeed_answer (env : Env) (req : Request) :
  answer (getPersonalizedFeed env req) =
  match Mongo.findById (Users (store env)) (viewer req) with
  | None => None
  | Some user =>
      let page := JS.or_default (query_page req) 1 in
      let limit := JS.or_default (query_limit req) 10 in
      let skip := (page - 1) * limit in
      let sorted :=
        Array_sort comparefn
          (candidates (store env) (viewer req)
                      (followingIds_of (store env) user) limit) in
      Some (mkResponse (JS.slice sorted skip (skip + limit)) page
              (JS.Math_ceil_div (Mongo.size sorted) limit) (Mongo.size sorted)
              "personalized")
  end.
Proof.
  unfold getPersonalizedFeed. rewrite answer_bind. cbn [answer await snd].
  destruct (Mongo.findById _ _) as [user|]; [|reflexivity].
  rewrite answer_bind, build_allPosts_answer. reflexivity.
Qed.

(* ================================================================== *)
(** * Descending orders *)
(* ================================================================== *)

Lemma Qlt_bool_false (x y : Q) : Qlt_bool x y = false <-> (y <= x)%Q.
Proof.
  unfold Qlt_bool. rewrite negb_false_iff. apply Qle_bool_iff.
Qed.

Lemma Qlt_bool_true (x y : Q) : Qlt_bool x y = true <-> (x < y)%Q.
Proof.
  unfold Qlt_bool. rewrite negb_true_iff. split.
  - intros H. apply Qnot_le_lt. intros Hle.
    apply Qle_bool_iff in Hle. congruence.
  - intros H. destruct (Qle_bool y x) eqn:E; [|reflexivity].
    apply Qle_bool_iff in E. exfalso. exact (Qlt_not_le _ _ H E).
Qed.

(* ================================================================== *)
(** * Facts about binary64 rounding *)
(* ================================================================== *)

Section Binary64Facts.
Import Binary64.
Local Open Scope Q_scope.

Lemma pow2_pos (e : Z) : 0 < 2 ^ e.
Proof. apply Qpower_0_lt. reflexivity. Qed.

Lemma pow2_plus (a b : Z) : 2 ^ (a + b) == 2 ^ a * 2 ^ b.
Proof. apply Qpower_plus. discriminate. Qed.

Lemma pow2_le (a b : Z) : (a <= b)%Z -> 2 ^ a <= 2 ^ b.
Proof. intros H. apply Qpower_le_compat_l; [exact H | discriminate]. Qed.

Lemma pow2_lt (a b : Z) : (a < b)%Z -> 2 ^ a < 2 ^ b.
Proof. intros H. apply Qpower_lt_compat_l; [exact H | reflexivity]. Qed.

Lemma pow2_lt_inv (a b : Z) : 2 ^ a < 2 ^ b -> (a < b)%Z.
Proof. intros H. apply (Qpower_lt_compat_l_inv 2); [exact H | reflexivity]. Qed.

Lemma pow2_Z (n : Z) : (0 <= n)%Z -> 2 ^ n == inject_Z (2 ^ n).
Proof. intros H. symmetry. apply (Zpower_Qpower 2 n H). Qed.

Lemma pow2_succ (a : Z) : 2 ^ (a + 1) == 2 * 2 ^ a.
Proof. rewrite pow2_plus. simpl (2 ^ 1). ring. Qed.

(** [x] lies between two powers of two that [Z.log2] of its numerator
    and denominator determine. *)
Lemma log2_frac_bounds (x : Q) :
  0 < x ->
  let k := (Z.log2 (Qnum x) - Z.log2 (Zpos (Qden x)))%Z in
  2 ^ (k - 1) < x /\ x < 2 ^ (k + 1).
Proof.
  intros Hx. cbv zeta. destruct x as [n d]. cbn [Qnum Qden].
  assert (Hn : (0 < n)%Z) by (unfold Qlt in Hx; simpl in Hx; lia).
  pose proof (Z.log2_spec n Hn) as [Hn1 Hn2].
  pose proof (Z.log2_spec (Zpos d) (Pos2Z.is_pos d)) as [Hd1 Hd2].
  pose proof (Z.log2_nonneg n) as Ha. pose proof (Z.log2_nonneg (Zpos d)) as Hb.
  set (a := Z.log2 n) in *. set (b := Z.log2 (Zpos d)) in *.
  assert (Hpa : (0 < 2 ^ a)%Z) by (apply Z.pow_pos_nonneg; lia).
  assert (Hpb : (0 < 2 ^ b)%Z) by (apply Z.pow_pos_nonneg; lia).
  rewrite Z.pow_succ_r in Hn2, Hd2 by lia.
  assert (E1 : 2 ^ (a - b - 1) == inject_Z (2 ^ a) / inject_Z (2 * 2 ^ b)).
  { replace (a - b - 1)%Z with (a - (b + 1))%Z by lia.
    rewrite Qpower_minus by discriminate.
    rewrite (pow2_Z a), (pow2_Z (b + 1)) by lia.
    replace (2 ^ (b + 1))%Z with (2 * 2 ^ b)%Z
      by (rewrite Z.pow_add_r by lia; lia).
    reflexivity. }
  assert (E2 : 2 ^ (a - b + 1) == inject_Z (2 * 2 ^ a) / inject_Z (2 ^ b)).
  { replace (a - b + 1)%Z with (a + 1 - b)%Z by lia.
    rewrite Qpower_minus by discriminate.
    rewrite (pow2_Z (a + 1)), (pow2_Z b) by lia.
    replace (2 ^ (a + 1))%Z with (2 * 2 ^ a)%Z
      by (rewrite Z.pow_add_r by lia; lia).
    reflexivity. }
  rewrite E1, E2. clear E1 E2.
  generalize dependent (2 ^ a)%Z. intros P HP1 HP2 HP.
  generalize dependent (2 ^ b)%Z. intros D HD1 HD2 HD.
  split.
  - apply Qlt_shift_div_r.
    + change 0 with (inject_Z 0). rewrite <- Zlt_Qlt. lia.
    + unfold Qlt, Qmult, inject_Z. cbn [Qnum Qden].
      rewrite Pos.mul_1_r, !Z.mul_1_r. nia.
  - apply Qlt_shift_div_l.
    + change 0 with (inject_Z 0). rewrite <- Zlt_Qlt. lia.
    + unfold Qlt, Qmult, inject_Z. cbn [Qnum Qden].
      rewrite Pos.mul_1_r, !Z.mul_1_r. nia.
Qed.

Lemma ilog2_spec (x : Q) :
  0 < x -> 2 ^ ilog2 x <= x /\ x < 2 ^ (ilog2 x + 1).
Proof.
  intros Hx. destruct (log2_frac_bounds x Hx) as [H1 H2]. unfold ilog2.
  set (k := (Z.log2 (Qnum x) - Z.log2 (Zpos (Qden x)))%Z) in *.
  destruct (Qle_bool (2 ^ k) x) eqn:E.
  - apply Qle_bool_iff in E. auto.
  - split; [apply Qlt_le_weak, H1|].
    replace (k - 1 + 1)%Z with k by lia.
    apply Qnot_le_lt. intros H. apply Qle_bool_iff in H. congruence.
Qed.

Lemma ilog2_unique (x : Q) (k : Z) :
  2 ^ k <= x -> x < 2 ^ (k + 1) -> ilog2 x = k.
Proof.
  intros H1 H2.
  assert (Hx : 0 < x) by (eapply Qlt_le_trans; [apply (pow2_pos k) | exact H1]).
  destruct (ilog2_spec x Hx) as [L1 L2].
  assert (A : (k < ilog2 x + 1)%Z)
    by (apply pow2_lt_inv; eapply Qle_lt_trans; eassumption).
  assert (B : (ilog2 x < k + 1)%Z)
    by (apply pow2_lt_inv; eapply Qle_lt_trans; eassumption).
  lia.
Qed.

Lemma ilog2_comp (x y : Q) : 0 < x -> x == y -> ilog2 x = ilog2 y.
Proof.
  intros Hx E. symmetry. destruct (ilog2_spec x Hx) as [L1 L2].
  apply ilog2_unique; rewrite <- E; assumption.
Qed.

Lemma ilog2_mono (x y : Q) : 0 < x -> x <= y -> (ilog2 x <= ilog2 y)%Z.
Proof.
  intros Hx Hxy.
  assert (Hy : 0 < y) by (eapply Qlt_le_trans; eassumption).
  destruct (ilog2_spec x Hx) as [L1 _]. destruct (ilog2_spec y Hy) as [_ L2].
  assert (A : (ilog2 x < ilog2 y + 1)%Z).
  { apply pow2_lt_inv. eapply Qle_lt_trans; [exact L1|].
    eapply Qle_lt_trans; eassumption. }
  lia.
Qed.

(** Rounding to the nearest integer. *)
Lemma rne_cases (x : Q) :
  let f := Qfloor x in
  inject_Z f <= x /\ x < inject_Z f + 1
  /\ ((x - inject_Z f < 1 # 2 /\ rne x = f)
      \/ ((1 # 2) < x - inject_Z f /\ rne x = (f + 1)%Z)
      \/ (x - inject_Z f == 1 # 2 /\ (rne x = f \/ rne x = (f + 1)%Z))).
Proof.
  cbv zeta. pose proof (Qfloor_le x) as H1. pose proof (Qlt_floor x) as H2.
  rewrite inject_Z_plus in H2. change (inject_Z 1) with 1 in H2.
  split; [exact H1|]. split; [exact H2|].
  unfold rne.
  destruct (Qlt_bool (x - inject_Z (Qfloor x)) (1 # 2)) eqn:E1.
  { apply Qlt_bool_true in E1. left. auto. }
  apply Qlt_bool_false in E1.
  destruct (Qlt_bool (1 # 2) (x - inject_Z (Qfloor x))) eqn:E2.
  { apply Qlt_bool_true in E2. right. left. auto. }
  apply Qlt_bool_false in E2. right. right.
  split; [apply Qle_antisym; assumption|].
  destruct (Z.even (Qfloor x)); auto.
Qed.

Lemma rne_error (x : Q) :
  x - (1 # 2) <= inject_Z (rne x) /\ inject_Z (rne x) <= x + (1 # 2).
Proof.
  destruct (rne_cases x) as [H1 [H2 [[H ->]|[[H ->]|[H [-> | ->]]]]]];
    rewrite ?inject_Z_plus; change (inject_Z 1) with 1; split; lra.
Qed.

Lemma Qfloor_comp_eq (x y : Q) : x == y -> Qfloor x = Qfloor y.
Proof. intros E. rewrite E. reflexivity. Qed.

Lemma rne_comp (x y : Q) : x == y -> rne x = rne y.
Proof.
  intros E. unfold rne. rewrite (Qfloor_comp_eq x y E).
  assert (Er : x - inject_Z (Qfloor y) == y - inject_Z (Qfloor y))
    by (rewrite E; reflexivity).
  assert (B1 : Qlt_bool (x - inject_Z (Qfloor y)) (1 # 2)
               = Qlt_bool (y - inject_Z (Qfloor y)) (1 # 2)).
  { apply eq_iff_eq_true. rewrite !Qlt_bool_true, Er. reflexivity. }
  assert (B2 : Qlt_bool (1 # 2) (x - inject_Z (Qfloor y))
               = Qlt_bool (1 # 2) (y - inject_Z (Qfloor y))).
  { apply eq_iff_eq_true. rewrite !Qlt_bool_true, Er. reflexivity. }
  rewrite B1, B2. reflexivity.
Qed.

Lemma rne_Z (n : Z) : rne (inject_Z n) = n.
Proof.
  unfold rne. rewrite Qfloor_Z.
  assert (E : Qlt_bool (inject_Z n - inject_Z n) (1 # 2) = true).
  { apply Qlt_bool_true. lra. }
  rewrite E. reflexivity.
Qed.

Lemma rne_mono (x y : Q) : x <= y -> (rne x <= rne y)%Z.
Proof.
  intros Hxy. pose proof (Qfloor_resp_le x y Hxy) as Hf.
  destruct (Z.eq_dec (Qfloor x) (Qfloor y)) as [E|E].
  - unfold rne. rewrite E.
    assert (Hr : x - inject_Z (Qfloor y) <= y - inject_Z (Qfloor y)) by lra.
    destruct (Qlt_bool (x - inject_Z (Qfloor y)) (1 # 2)) eqn:X1;
      destruct (Qlt_bool (y - inject_Z (Qfloor y)) (1 # 2)) eqn:Y1;
      destruct (Qlt_bool (1 # 2) (x - inject_Z (Qfloor y))) eqn:X2;
      destruct (Qlt_bool (1 # 2) (y - inject_Z (Qfloor y))) eqn:Y2;
      rewrite ?Qlt_bool_true, ?Qlt_bool_false in *;
      try lia; try (exfalso; lra);
      destruct (Z.even (Qfloor y)); lia.
  - assert (Hlt : (Qfloor x + 1 <= Qfloor y)%Z) by lia.
    destruct (rne_cases x) as [_ [_ Hx]]. destruct (rne_cases y) as [_ [_ Hy]].
    assert (A : (rne x <= Qfloor x + 1)%Z) by (destruct Hx as [[_ ->]|[[_ ->]|[_ [-> | ->]]]]; lia).
    assert (B : (Qfloor y <= rne y)%Z) by (destruct Hy as [[_ ->]|[[_ ->]|[_ [-> | ->]]]]; lia).
    lia.
Qed.

(** The significand of a positive number. *)
Lemma scaled_bounds (y : Q) :
  0 < y ->
  2 ^ 52 <= y / 2 ^ (ilog2 y - 52) /\ y / 2 ^ (ilog2 y - 52) < 2 ^ 53.
Proof.
  intros Hy. destruct (ilog2_spec y Hy) as [L1 L2].
  set (e := (ilog2 y - 52)%Z).
  pose proof (pow2_pos e) as He.
  replace (ilog2 y) with (e + 52)%Z in L1 by (unfold e; lia).
  replace (ilog2 y + 1)%Z with (e + 53)%Z in L2 by (unfold e; lia).
  rewrite pow2_plus in L1, L2. split.
  - apply Qle_shift_div_l; [exact He|]. rewrite Qmult_comm. exact L1.
  - apply Qlt_shift_div_r; [exact He|]. rewrite Qmult_comm. exact L2.
Qed.

Lemma significand_bounds (y : Q) :
  0 < y ->
  (2 ^ 52 <= rne (y / 2 ^ (ilog2 y - 52)) <= 2 ^ 53)%Z.
Proof.
  intros Hy. destruct (scaled_bounds y Hy) as [H1 H2].
  split.
  - rewrite <- (rne_Z (2 ^ 52)). apply rne_mono. exact H1.
  - rewrite <- (rne_Z (2 ^ 53)). apply rne_mono. apply Qlt_le_weak. exact H2.
Qed.

Lemma Qeq_bool_false (x y : Q) : ~ x == y -> Qeq_bool x y = false.
Proof.
  intros H. destruct (Qeq_bool x y) eqn:E; [|reflexivity].
  apply Qeq_bool_iff in E. contradiction.
Qed.

Lemma round_pos_eq (x : Q) :
  0 < x ->
  round x == inject_Z (rne (x / 2 ^ (ilog2 x - 52))) * 2 ^ (ilog2 x - 52).
Proof.
  intros Hx. unfold round.
  rewrite Qeq_bool_false by (intros E; rewrite E in Hx; discriminate Hx).
  assert (Ea : Qabs x == x) by (apply Qabs_pos, Qlt_le_weak, Hx).
  assert (Hl : Qlt_bool x 0 = false) by (apply Qlt_bool_false, Qlt_le_weak, Hx).
  rewrite Hl, Qred_correct.
  assert (Ha : 0 < Qabs x) by (rewrite Ea; exact Hx).
  rewrite (ilog2_comp (Qabs x) x Ha Ea).
  rewrite (rne_comp (Qabs x / 2 ^ (ilog2 x - 52)) (x / 2 ^ (ilog2 x - 52)))
    by (rewrite Ea; reflexivity).
  reflexivity.
Qed.

Lemma round_zero (x : Q) : x == 0 -> round x = 0.
Proof.
  intros E. unfold round. apply Qeq_bool_iff in E. rewrite E. reflexivity.
Qed.

Lemma round_neg_eq (x : Q) : x < 0 -> round x == - round (- x).
Proof.
  intros Hx. unfold round.
  rewrite !Qeq_bool_false.
  2:{ intros E. assert (x == 0) by lra. lra. }
  2:{ intros E. lra. }
  assert (Hl : Qlt_bool x 0 = true) by (apply Qlt_bool_true, Hx).
  assert (Hl' : Qlt_bool (- x) 0 = false) by (apply Qlt_bool_false; lra).
  rewrite Hl, Hl', !Qred_correct.
  assert (Ea : Qabs (- x) == Qabs x) by apply Qabs_opp.
  assert (Ha : 0 < Qabs (- x)).
  { rewrite Ea, Qabs_neg by lra. lra. }
  rewrite (ilog2_comp (Qabs (- x)) (Qabs x) Ha Ea).
  rewrite (rne_comp (Qabs (- x) / 2 ^ (ilog2 (Qabs x) - 52))
                    (Qabs x / 2 ^ (ilog2 (Qabs x) - 52)))
    by (rewrite Ea; reflexivity).
  ring.
Qed.

Lemma round_pos_bounds (x : Q) :
  0 < x -> 2 ^ ilog2 x <= round x /\ round x <= 2 ^ (ilog2 x + 1).
Proof.
  intros Hx. rewrite (round_pos_eq x Hx).
  destruct (significand_bounds x Hx) as [H1 H2].
  set (e := (ilog2 x - 52)%Z) in *. pose proof (pow2_pos e) as He.
  replace (ilog2 x) with (52 + e)%Z at 1 by (unfold e; lia).
  replace (ilog2 x + 1)%Z with (53 + e)%Z by (unfold e; lia).
  rewrite !pow2_plus, (pow2_Z 52), (pow2_Z 53) by lia.
  rewrite Zle_Qle in H1, H2. split.
  - apply Qmult_le_compat_r; [exact H1 | apply Qlt_le_weak, He].
  - apply Qmult_le_compat_r; [exact H2 | apply Qlt_le_weak, He].
Qed.

Lemma round_pos (x : Q) : 0 < x -> 0 < round x.
Proof.
  intros Hx. destruct (round_pos_bounds x Hx) as [H _].
  eapply Qlt_le_trans; [apply (pow2_pos (ilog2 x)) | exact H].
Qed.

Lemma round_neg (x : Q) : x < 0 -> round x < 0.
Proof.
  intros Hx. rewrite (round_neg_eq x Hx).
  assert (H : 0 < round (- x)) by (apply round_pos; lra). lra.
Qed.

Lemma round_mono_pos (x y : Q) : 0 < x -> x <= y -> round x <= round y.
Proof.
  intros Hx Hxy.
  assert (Hy : 0 < y) by (eapply Qlt_le_trans; eassumption).
  pose proof (ilog2_mono x y Hx Hxy) as Hl.
  destruct (Z.eq_dec (ilog2 x) (ilog2 y)) as [E|E].
  - rewrite (round_pos_eq x Hx), (round_pos_eq y Hy), E.
    set (e := (ilog2 y - 52)%Z). pose proof (pow2_pos e) as He.
    apply Qmult_le_compat_r; [|apply Qlt_le_weak, He].
    rewrite <- Zle_Qle. apply rne_mono.
    apply Qmult_le_compat_r; [exact Hxy|].
    apply Qlt_le_weak, Qinv_lt_0_compat, He.
  - destruct (round_pos_bounds x Hx) as [_ H1].
    destruct (round_pos_bounds y Hy) as [H2 _].
    eapply Qle_trans; [exact H1|]. eapply Qle_trans; [|exact H2].
    apply pow2_le. lia.
Qed.

(** Rounding is monotone. *)
Lemma round_mono (x y : Q) : x <= y -> round x <= round y.
Proof.
  intros Hxy.
  destruct (Qlt_le_dec 0 x) as [Hx|Hx].
  - apply round_mono_pos; assumption.
  - destruct (Qlt_le_dec 0 y) as [Hy|Hy].
    + assert (A : round x <= 0).
      { destruct (Qlt_le_dec x 0) as [Hx'|Hx'].
        - apply Qlt_le_weak, round_neg, Hx'.
        - rewrite (round_zero x) by lra. lra. }
      pose proof (round_pos y Hy). lra.
    + destruct (Qlt_le_dec y 0) as [Hy'|Hy'].
      * assert (Hx' : x < 0) by lra.
        rewrite (round_neg_eq x Hx'), (round_neg_eq y Hy').
        assert (H : round (- y) <= round (- x)) by (apply round_mono_pos; lra).
        lra.
      * rewrite (round_zero y) by lra.
        destruct (Qlt_le_dec x 0) as [Hx'|Hx'].
        -- apply Qlt_le_weak, round_neg, Hx'.
        -- rewrite (round_zero x) by lra. lra.
Qed.


(** Equal numbers have the same rounded number, digit by digit. *)
Lemma round_comp (x y : Q) : x == y -> round x = round y.
Proof.
  intros E. unfold round.
  assert (B0 : Qeq_bool x 0 = Qeq_bool y 0).
  { apply eq_iff_eq_true. rewrite !Qeq_bool_iff, E. reflexivity. }
  rewrite B0. destruct (Qeq_bool y 0) eqn:E0; [reflexivity|].
  assert (Hy : ~ y == 0) by (intros H; apply Qeq_bool_iff in H; congruence).
  assert (Ea : Qabs x == Qabs y) by (rewrite E; reflexivity).
  assert (Ha : 0 < Qabs x).
  { rewrite Ea. apply Qabs_case; intros H.
    - destruct (Qlt_le_dec 0 y) as [H'|H']; [exact H'|]. exfalso. apply Hy. lra.
    - destruct (Qlt_le_dec y 0) as [H'|H']; [lra|]. exfalso. apply Hy. lra. }
  rewrite (ilog2_comp (Qabs x) (Qabs y) Ha Ea).
  rewrite (rne_comp (Qabs x / 2 ^ (ilog2 (Qabs y) - 52))
                    (Qabs y / 2 ^ (ilog2 (Qabs y) - 52)))
    by (rewrite Ea; reflexivity).
  assert (B1 : Qlt_bool x 0 = Qlt_bool y 0).
  { apply eq_iff_eq_true. rewrite !Qlt_bool_true, E. reflexivity. }
  rewrite B1. reflexivity.
Qed.

Lemma round_error_pos (x : Q) :
  0 < x ->
  x - x * (1 # 2 ^ 53) <= round x /\ round x <= x + x * (1 # 2 ^ 53).
Proof.
  intros Hx. rewrite (round_pos_eq x Hx).
  destruct (scaled_bounds x Hx) as [H1 _].
  set (e := (ilog2 x - 52)%Z) in *. pose proof (pow2_pos e) as He.
  destruct (rne_error (x / 2 ^ e)) as [R1 R2].
  set (m := inject_Z (rne (x / 2 ^ e))) in *.
  assert (Es : x == (x / 2 ^ e) * 2 ^ e) by (field; lra).
  set (s := x / 2 ^ e) in *.
  assert (H52 : 2 ^ 52 == 4503599627370496) by reflexivity.
  rewrite H52 in H1.
  assert (Hhalf : (1 # 2) <= s * (1 # 2 ^ 53)).
  { change (1 # 2 ^ 53) with (1 # 9007199254740992). lra. }
  clearbody s m. rewrite Es. split.
  - setoid_replace (s * 2 ^ e - s * 2 ^ e * (1 # 2 ^ 53))
      with ((s - s * (1 # 2 ^ 53)) * 2 ^ e) by ring.
    apply Qmult_le_compat_r; [lra | apply Qlt_le_weak, He].
  - setoid_replace (s * 2 ^ e + s * 2 ^ e * (1 # 2 ^ 53))
      with ((s + s * (1 # 2 ^ 53)) * 2 ^ e) by ring.
    apply Qmult_le_compat_r; [lra | apply Qlt_le_weak, He].
Qed.

(** The relative error of rounding is at most [2^-53]. *)
Lemma round_error (x : Q) :
  Qabs (round x - x) <= Qabs x * (1 # 2 ^ 53).
Proof.
  destruct (Qlt_le_dec 0 x) as [Hx|Hx].
  - destruct (round_error_pos x Hx) as [H1 H2].
    rewrite (Qabs_pos x) by lra. apply Qabs_case; intros; lra.
  - destruct (Qlt_le_dec x 0) as [Hx'|Hx'].
    + assert (Hn : 0 < - x) by lra.
      destruct (round_error_pos (- x) Hn) as [H1 H2].
      rewrite (round_neg_eq x Hx'), (Qabs_neg x) by lra.
      apply Qabs_case; intros; lra.
    + rewrite (round_zero x) by lra.
      assert (E : x == 0) by lra. rewrite E. discriminate.
Qed.

Lemma round_opp (x : Q) : round (- x) == - round x.
Proof.
  destruct (Qlt_le_dec 0 x) as [Hx|Hx].
  - rewrite (round_neg_eq (- x)) by lra.
    rewrite (round_comp (- - x) x) by ring. reflexivity.
  - destruct (Qlt_le_dec x 0) as [Hx'|Hx'].
    + rewrite (round_neg_eq x Hx'). ring.
    + rewrite (round_zero x), (round_zero (- x)) by lra. reflexivity.
Qed.

(** A bound that is a binary64 number bounds the rounded number. *)
Lemma round_bounds (x B : Q) :
  round B == B -> - B <= x -> x <= B -> - B <= round x /\ round x <= B.
Proof.
  intros HB H1 H2. split.
  - rewrite <- HB at 1. rewrite <- round_opp. apply round_mono, H1.
  - rewrite <- HB. apply round_mono, H2.
Qed.

Lemma round_error_bound (x B : Q) :
  - B <= x -> x <= B ->
  x - B * (1 # 2 ^ 53) <= round x /\ round x <= x + B * (1 # 2 ^ 53).
Proof.
  intros H1 H2. pose proof (round_error x) as H.
  assert (Ha : Qabs x <= B) by (apply Qabs_case; intros; lra).
  assert (Hb : Qabs x * (1 # 2 ^ 53) <= B * (1 # 2 ^ 53)).
  { apply Qmult_le_compat_r; [exact Ha | discriminate]. }
  revert H. apply Qabs_case; intros; split; lra.
Qed.



End Binary64Facts.

(* ================================================================== *)
(** * Sorted lists *)
(* ================================================================== *)

Lemma StronglySorted_impl {A : Type} (R S : A -> A -> Prop) (l : list A) :
  (forall a b, R a b -> S a b) -> StronglySorted R l -> StronglySorted S l.
Proof.
  intros HRS. induction 1 as [|x l Hl IH Hx]; constructor.
  - exact IH.
  - eapply Forall_impl; [|exact Hx]. intros b. apply HRS.
Qed.


(** [$sort: { k: -1 }] on a rational key. *)
Lemma sort_descQ_sorted {A : Type} (k : A -> Q) (l : list A) :
  StronglySorted (by_score k) (Mongo.sort_descQ k l).
Proof.
  unfold Mongo.sort_descQ.
  set (after := fun a b : A => Qlt_bool (k a) (k b)).
  apply StronglySorted_impl with (R := ahead after).
  - intros a b H. unfold ahead, after in H. apply Qlt_bool_false in H. exact H.
  - apply stable_sort_sorted.
    + intros x y H. unfold after in *. apply Qlt_bool_true in H.
      apply Qlt_bool_false. lra.
    + intros x y z. unfold ahead, after. rewrite !Qlt_bool_false. lra.
Qed.

Lemma sort_desc2_sorted {A : Type} (k1 k2 : A -> Z) (l : list A) :
  StronglySorted (by_keys k1 k2) (Mongo.sort_desc2 k1 k2 l).
Proof.
  unfold Mongo.sort_desc2.
  set (after := fun a b : A =>
                  (k1 a <? k1 b) || ((k1 a =? k1 b) && (k2 a <? k2 b))).
  assert (Hahead : forall a b, ahead after a b <-> by_keys k1 k2 a b).
  { intros a b. unfold ahead, after, by_keys.
    rewrite orb_false_iff, andb_false_iff, Z.ltb_ge, Z.eqb_neq, Z.ltb_ge. lia. }
  apply StronglySorted_impl with (R := ahead after).
  - intros a b. apply Hahead.
  - apply stable_sort_sorted.
    + intros x y H. apply Hahead. unfold after in H.
      rewrite orb_true_iff, andb_true_iff, Z.ltb_lt, Z.eqb_eq, Z.ltb_lt in H.
      unfold by_keys. lia.
    + intros x y z. rewrite !Hahead. unfold by_keys. lia.
Qed.

Lemma sort_desc_sorted {A : Type} (k : A -> Z) (l : list A) :
  StronglySorted (fun a b => k b <= k a) (Mongo.sort_desc k l).
Proof.
  unfold Mongo.sort_desc.
  set (after := fun a b : A => k a <? k b).
  apply StronglySorted_impl with (R := ahead after).
  - intros a b H. unfold ahead, after in H. apply Z.ltb_ge in H. exact H.
  - apply stable_sort_sorted.
    + intros x y H. unfold after in *. apply Z.ltb_lt in H. apply Z.ltb_ge. lia.
    + intros x y z. unfold ahead, after. rewrite !Z.ltb_ge. lia.
Qed.

(* ================================================================== *)
(** * Final ordering of the personalized feed *)
(* ================================================================== *)



(** The three scores agree with the binary64 operations of the
    standard library on the posts of the stores used below. *)
Lemma scores_agree_with_SpecFloat :
  forallb (fun p => Qeq_bool (unifiedScore p) (SF64_to_Q (unifiedScore_SpecFloat p)))
          (Sample.posts ++ [Rounding.X; Rounding.Y; Scenario.A; Scenario.B]) = true
  /\ forallb (fun now =>
        forallb (fun p => Qeq_bool (finalScore (add_finalScore now p))
                                   (SF64_to_Q (finalScore_SpecFloat now p)))
                (Sample.posts ++ [Rounding.P; Rounding.R; Rounding.F; Rounding.G;
                                  Scenario.A; Scenario.B]))
        [0; 86400000; 172800000; 435600000; 464400000; 1700000000000] = true
  /\ forallb (fun n =>
        forallb (fun m =>
          forallb (fun k =>
            match add_discoveryScore [mkUser 1 [] (repeat 1 k)]
                    (mkPost 1 1 (repeat 1 n) (repeat (mkComment 1 0) m) true 0) with
            | Some d =>
                Qeq_bool (discoveryScore d)
                  (SF64_to_Q (discoveryScore_SpecFloat (Z.of_nat n) (Z.of_nat m)
                                (Z.of_nat k)))
            | None => false
            end) (seq 0 6)) (seq 0 6)) (seq 0 6) = true.
Proof. vm_compute. repeat split. Qed.

(** ** The binary64 score and the exact value of the formula *)

Section UnifiedScoreError.
Import Binary64.
Local Open Scope Q_scope.

Lemma Qdiv_const (x : Q) (d : positive) : x / inject_Z (Zpos d) == x * (1 # d).
Proof. unfold Qdiv. apply Qmult_comp; [reflexivity|]. reflexivity. Qed.

Lemma inject_Z_bounds (z B : Z) :
  (Z.abs z <= B)%Z -> - inject_Z B <= inject_Z z /\ inject_Z z <= inject_Z B.
Proof. intros H. rewrite <- inject_Z_opp, <- !Zle_Qle. lia. Qed.


Lemma grid_gap (p q : Z) (d : positive) :
  inject_Z p / inject_Z (Zpos d) < inject_Z q / inject_Z (Zpos d) ->
  inject_Z p / inject_Z (Zpos d) + (1 # d) <= inject_Z q / inject_Z (Zpos d).
Proof.
  rewrite !Qdiv_const. intros H.
  assert (Hpq : (p < q)%Z).
  { apply Z.lt_nge. intros Hge. rewrite Zle_Qle in Hge.
    assert (Hd : 0 <= 1 # d) by discriminate.
    pose proof (Qmult_le_compat_r _ _ _ Hge Hd). lra. }
  assert (H1 : inject_Z p + 1 <= inject_Z q).
  { change 1 with (inject_Z 1). rewrite <- inject_Z_plus, <- Zle_Qle. lia. }
  assert (Hd : 0 <= 1 # d) by discriminate.
  pose proof (Qmult_le_compat_r _ _ _ H1 Hd) as H2.
  setoid_replace ((inject_Z p + 1) * (1 # d)) with (inject_Z p * (1 # d) + (1 # d)) in H2
    by ring.
  exact H2.
Qed.




End UnifiedScoreError.




(* ================================================================== *)
(** * Where the candidates of the personalized feed come from *)
(* ================================================================== *)

Lemma mem_true_iff (x : ObjectId) (l : list ObjectId) :
  Mongo.mem x l = true <-> In x l.
Proof.
  unfold Mongo.mem. rewrite existsb_exists. split.
  - intros [y [Hy E]]. apply Z.eqb_eq in E. subst. exact Hy.
  - intros H. exists x. split; [exact H | apply Z.eqb_refl].
Qed.

Lemma mem_false_iff (x : ObjectId) (l : list ObjectId) :
  Mongo.mem x l = false <-> ~ In x l.
Proof.
  rewrite <- mem_true_iff. destruct (Mongo.mem x l); split; intros H.
  - discriminate.
  - exfalso. apply H. reflexivity.
  - discriminate.
  - reflexivity.
Qed.

Lemma NoDup_map_filter {A B : Type} (f : A -> B) (g : A -> bool) (l : list A) :
  NoDup (map f l) -> NoDup (map f (filter g l)).
Proof.
  induction l as [|x l IH]; simpl; intros H; [constructor|].
  inversion H as [|? ? Hx Hl]; subst.
  destruct (g x); simpl; [constructor|]; auto.
  intros Hin. apply Hx. rewrite in_map_iff in *.
  destruct Hin as [y [Hy Hin]]. exists y. split; [exact Hy|].
  apply filter_In in Hin. tauto.
Qed.

Lemma NoDup_map_sort {A B : Type} (f : A -> B) (after : A -> A -> bool) (l : list A) :
  NoDup (map f l) -> NoDup (map f (stable_sort after l)).
Proof.
  apply Permutation_NoDup, Permutation_map, Permutation_sym, stable_sort_perm.
Qed.

Lemma NoDup_map_firstn {A B : Type} (f : A -> B) (n : nat) (l : list A) :
  NoDup (map f l) -> NoDup (map f (firstn n l)).
Proof.
  intros H. rewrite <- firstn_map. apply NoDup_firstn, H.
Qed.

Lemma cursor_limit_In {A : Type} (n : Z) (l : list A) (x : A) :
  In x (Mongo.cursor_limit n l) -> In x l.
Proof.
  unfold Mongo.cursor_limit. destruct (n =? 0); [auto | apply In_firstn].
Qed.

Lemma cursor_limit_NoDup_map {A B : Type} (f : A -> B) (n : Z) (l : list A) :
  NoDup (map f l) -> NoDup (map f (Mongo.cursor_limit n l)).
Proof.
  unfold Mongo.cursor_limit. destruct (n =? 0); [auto | apply NoDup_map_firstn].
Qed.

(** A followed post of the feed is a populated public post of the store
    whose author is in [followingIds]. *)
Lemma find_followingPosts_In (st : Store) (followingIds : list ObjectId) (n : Z)
    (d : FeedDoc) :
  In d (find_followingPosts st followingIds n) ->
  exists p, In p (Posts st) /\ d = Followed (Mongo.populate (Users st) p)
            /\ In (author p) followingIds /\ isPublic p = true.
Proof.
  unfold find_followingPosts. rewrite in_map_iff. intros [p [<- Hp]].
  apply cursor_limit_In in Hp. unfold Mongo.sort_desc in Hp.
  apply stable_sort_In in Hp. apply filter_In in Hp. destruct Hp as [Hp Hf].
  apply andb_true_iff in Hf. destruct Hf as [Ha Hpub].
  exists p. rewrite <- mem_true_iff. auto.
Qed.

Lemma find_followingPosts_NoDup (st : Store) (followingIds : list ObjectId) (n : Z) :
  unique_ids st -> NoDup (map doc_id (find_followingPosts st followingIds n)).
Proof.
  intros H. unfold find_followingPosts. rewrite map_map. cbn [doc_id doc_post].
  change (fun x : Post => post_id (Mongo.populate (Users st) x)) with post_id.
  apply cursor_limit_NoDup_map. unfold Mongo.sort_desc.
  apply NoDup_map_sort, NoDup_map_filter, H.
Qed.

(** A result of [postsLikedByFollowing] is built from a post of the
    store that passes the first [$match], and passes the second one. *)
Lemma rank_liked_In (st : Store) (me : ObjectId) (followingIds excluded : list ObjectId)
    (d : LikedDoc) :
  In d (rank_liked st me followingIds excluded) ->
  In (liked_post d) (Posts st)
  /\ match_recommendable me followingIds excluded (liked_post d) = true
  /\ d = add_likedByFollowing (Users st) followingIds (liked_post d)
  /\ 0 < likedByFollowing d.
Proof.
  unfold rank_liked, Mongo.sort_desc2. intros H.
  apply stable_sort_In in H. apply filter_In in H. destruct H as [H Hpos].
  apply Z.ltb_lt in Hpos. apply in_map_iff in H. destruct H as [p [<- Hp]].
  apply filter_In in Hp. cbn [liked_post add_likedByFollowing]. tauto.
Qed.

Lemma rank_liked_NoDup (st : Store) (me : ObjectId)
    (followingIds excluded : list ObjectId) :
  unique_ids st ->
  NoDup (map (fun d => post_id (liked_post d))
             (rank_liked st me followingIds excluded)).
Proof.
  intros H. unfold rank_liked, Mongo.sort_desc2.
  apply NoDup_map_sort, NoDup_map_filter. rewrite map_map.
  cbn [liked_post add_likedByFollowing].
  apply NoDup_map_filter, H.
Qed.

Lemma rank_popular_In (st : Store) (me : ObjectId)
    (followingIds excluded : list ObjectId) (d : PopularDoc) :
  In d (rank_popular st me followingIds excluded) ->
  In (popular_post d) (Posts st)
  /\ match_recommendable me followingIds excluded (popular_post d) = true
  /\ engagementScore d = engagement (popular_post d).
Proof.
  unfold rank_popular, Mongo.sort_desc2. intros H.
  apply stable_sort_In in H. apply in_map_iff in H. destruct H as [p [<- Hp]].
  apply filter_In in Hp. cbn [popular_post engagementScore]. tauto.
Qed.

Lemma rank_popular_NoDup (st : Store) (me : ObjectId)
    (followingIds excluded : list ObjectId) :
  unique_ids st ->
  NoDup (map (fun d => post_id (popular_post d))
             (rank_popular st me followingIds excluded)).
Proof.
  intros H. unfold rank_popular, Mongo.sort_desc2.
  apply NoDup_map_sort. rewrite map_map. cbn [popular_post].
  apply NoDup_map_filter, H.
Qed.

Lemma liked_part_In (st : Store) (me : ObjectId) (followingIds : list ObjectId)
    (fp : list FeedDoc) (n : Z) (d : FeedDoc) :
  In d (liked_part st me followingIds fp n) ->
  exists x, d = Liked (populate_liked (Users st) x)
            /\ In x (rank_liked st me followingIds (map doc_id fp)).
Proof.
  unfold liked_part. rewrite in_map_iff. intros [x [<- Hx]].
  exists x. split; [reflexivity | eapply In_firstn, Hx].
Qed.

Lemma popular_part_In (st : Store) (me : ObjectId) (followingIds : list ObjectId)
    (fp lk : list FeedDoc) (n : Z) (d : FeedDoc) :
  In d (popular_part st me followingIds fp lk n) ->
  exists x, d = Popular (populate_popular (Users st) x)
            /\ In x (rank_popular st me followingIds
                       (map doc_id fp ++ map doc_id lk)).
Proof.
  unfold popular_part. rewrite in_map_iff. intros [x [<- Hx]].
  exists x. split; [reflexivity | eapply In_firstn, Hx].
Qed.

Lemma liked_part_NoDup (st : Store) (me : ObjectId) (followingIds : list ObjectId)
    (fp : list FeedDoc) (n : Z) :
  unique_ids st -> NoDup (map doc_id (liked_part st me followingIds fp n)).
Proof.
  intros H. unfold liked_part. rewrite map_map. cbn [doc_id doc_post populate_liked liked_post].
  change (fun x : LikedDoc => post_id (Mongo.populate (Users st) (liked_post x)))
    with (fun x : LikedDoc => post_id (liked_post x)).
  apply NoDup_map_firstn, rank_liked_NoDup, H.
Qed.

Lemma popular_part_NoDup (st : Store) (me : ObjectId) (followingIds : list ObjectId)
    (fp lk : list FeedDoc) (n : Z) :
  unique_ids st -> NoDup (map doc_id (popular_part st me followingIds fp lk n)).
Proof.
  intros H. unfold popular_part. rewrite map_map.
  cbn [doc_id doc_post populate_popular popular_post].
  change (fun x : PopularDoc => post_id (Mongo.populate (Users st) (popular_post x)))
    with (fun x : PopularDoc => post_id (popular_post x)).
  apply NoDup_map_firstn, rank_popular_NoDup, H.
Qed.

(** The recommended posts are the liked part, followed by the popular
    part when the liked part leaves slots open. *)
Lemma recommended_cases (st : Store) (me : ObjectId) (followingIds : list ObjectId)
    (fp : list FeedDoc) (n : Z) :
  recommended st me followingIds fp n = []
  \/ recommended st me followingIds fp n = liked_part st me followingIds fp n
  \/ recommended st me followingIds fp n =
     liked_part st me followingIds fp n
       ++ popular_part st me followingIds fp (liked_part st me followingIds fp n)
            (n - Mongo.size (liked_part st me followingIds fp n)).
Proof.
  unfold recommended. destruct (0 <? n); [|auto].
  destruct (_ <? n); auto.
Qed.

(** What the first [$match] of the recommendation pipelines lets through. *)
Lemma match_recommendable_spec (me : ObjectId) (followingIds excluded : list ObjectId)
    (p : Post) :
  match_recommendable me followingIds excluded p = true <->
  ~ In (post_id p) excluded /\ author p <> me /\ ~ In (author p) followingIds
  /\ isPublic p = true.
Proof.
  unfold match_recommendable.
  rewrite !andb_true_iff, !negb_true_iff, !mem_false_iff. simpl. intuition.
Qed.

Lemma match_recommendable_app (me : ObjectId) (followingIds e1 e2 : list ObjectId)
    (p : Post) :
  match_recommendable me followingIds (e1 ++ e2) p = true ->
  match_recommendable me followingIds e1 p = true /\ ~ In (post_id p) e2.
Proof.
  rewrite !match_recommendable_spec, in_app_iff. intuition.
Qed.

(** Every recommended post is a populated post of the store that passes
    the [$match] on the identifiers of the followed posts. *)
Lemma recommended_In (st : Store) (me : ObjectId) (followingIds : list ObjectId)
    (fp : list FeedDoc) (n : Z) (d : FeedDoc) :
  In d (recommended st me followingIds fp n) ->
  exists p, In p (Posts st)
            /\ doc_post d = Mongo.populate (Users st) p
            /\ match_recommendable me followingIds (map doc_id fp) p = true
            /\ ((exists x, d = Liked x) \/ (exists x, d = Popular x)).
Proof.
  intros H.
  assert (Hcases : In d (liked_part st me followingIds fp n)
                   \/ In d (popular_part st me followingIds fp
                              (liked_part st me followingIds fp n)
                              (n - Mongo.size (liked_part st me followingIds fp n)))).
  { destruct (recommended_cases st me followingIds fp n) as [E|[E|E]];
      rewrite E in H.
    - destruct H.
    - left. exact H.
    - apply in_app_or in H. exact H. }
  destruct Hcases as [Hl|Hp].
  - apply liked_part_In in Hl. destruct Hl as [x [-> Hx]].
    apply rank_liked_In in Hx. destruct Hx as [Hin [Hm _]].
    exists (liked_post x). cbn [doc_post populate_liked liked_post]. eauto 6.
  - apply popular_part_In in Hp. destruct Hp as [x [-> Hx]].
    apply rank_popular_In in Hx. destruct Hx as [Hin [Hm _]].
    apply match_recommendable_app in Hm. destruct Hm as [Hm _].
    exists (popular_post x). cbn [doc_post populate_popular popular_post]. eauto 6.
Qed.

Lemma recommended_NoDup (st : Store) (me : ObjectId) (followingIds : list ObjectId)
    (fp : list FeedDoc) (n : Z) :
  unique_ids st -> NoDup (map doc_id (recommended st me followingIds fp n)).
Proof.
  intros H.
  destruct (recommended_cases st me followingIds fp n) as [E|[E|E]]; rewrite E.
  - constructor.
  - apply liked_part_NoDup, H.
  - rewrite map_app. apply NoDup_app.
    + apply liked_part_NoDup, H.
    + apply popular_part_NoDup, H.
    + intros a Ha Hb. apply in_map_iff in Hb. destruct Hb as [d [<- Hd]].
      apply popular_part_In in Hd. destruct Hd as [x [-> Hx]].
      apply rank_popular_In in Hx. destruct Hx as [_ [Hm _]].
      apply match_recommendable_app in Hm. destruct Hm as [_ Hm].
      apply Hm. exact Ha.
Qed.

(** No identifier occurs twice among the candidates. *)
Lemma candidates_NoDup (st : Store) (me : ObjectId) (followingIds : list ObjectId)
    (limit : Z) :
  unique_ids st -> NoDup (map doc_id (candidates st me followingIds limit)).
Proof.
  intros H. unfold candidates. rewrite map_app. apply NoDup_app.
  - apply find_followingPosts_NoDup, H.
  - apply recommended_NoDup, H.
  - intros a Ha Hb. apply in_map_iff in Hb. destruct Hb as [d [<- Hd]].
    apply recommended_In in Hd. destruct Hd as [p [_ [Hp [Hm _]]]].
    apply match_recommendable_spec in Hm. destruct Hm as [Hm _].
    apply Hm. unfold doc_id in Ha |- *. rewrite Hp in Ha. exact Ha.
Qed.

(** Every candidate is a public post. *)
Lemma candidates_public (st : Store) (me : ObjectId) (followingIds : list ObjectId)
    (limit : Z) (d : FeedDoc) :
  In d (candidates st me followingIds limit) -> isPublic (doc_post d) = true.
Proof.
  unfold candidates. intros H. apply in_app_or in H. destruct H as [H|H].
  - apply find_followingPosts_In in H. destruct H as [p [_ [-> [_ Hpub]]]].
    exact Hpub.
  - apply recommended_In in H. destruct H as [p [_ [-> [Hm _]]]].
    apply match_recommendable_spec in Hm. simpl. tauto.
Qed.

(* ================================================================== *)
(** * No duplicates in a page of the personalized feed *)
(* ================================================================== *)

(** C3. With the [_id]s of the store pairwise distinct, no identifier
    occurs twice among the candidates assembled for a request, even
    though a post can be eligible for several of the three queries:
    [postsLikedByFollowing] excludes the [_id]s of [followingPosts], and
    [popularPosts] excludes those and the [_id]s taken by
    [postsLikedByFollowing].  Hence no identifier occurs twice in the
    returned page, whatever the page and the page size. *)
Theorem personalized_page_has_no_duplicate
    (env : Env) (req : Request) (resp : Response FeedDoc) :
  unique_ids (store env) ->
  answer (getPersonalizedFeed env req) = Some resp ->
  (exists user,
      Mongo.findById (Users (store env)) (viewer req) = Some user
      /\ NoDup (map doc_id
                  (candidates (store env) (viewer req)
                     (followingIds_of (store env) user)
                     (JS.or_default (query_limit req) 10)))
      /\ incl (posts resp)
              (candidates (store env) (viewer req)
                 (followingIds_of (store env) user)
                 (JS.or_default (query_limit req) 10)))
  /\ NoDup (map doc_id (posts resp))
  /\ (forall (i j : nat) (a b : FeedDoc),
         nth_error (posts resp) i = Some a ->
         nth_error (posts resp) j = Some b ->
         doc_id a = doc_id b -> i = j).
Proof.
  intros Huniq Hresp. rewrite getPersonalizedFeed_answer in Hresp.
  destruct (Mongo.findById _ _) as [user|]; [|discriminate].
  cbv zeta in Hresp. injection Hresp as <-. cbn [posts].
  set (all := candidates (store env) (viewer req)
                (followingIds_of (store env) user)
                (JS.or_default (query_limit req) 10)).
  set (skip := (JS.or_default (query_page req) 1 - 1)
               * JS.or_default (query_limit req) 10).
  assert (Hall : NoDup (map doc_id all)) by (apply candidates_NoDup, Huniq).
  assert (Hnd : NoDup (map doc_id
                         (JS.slice (Array_sort comparefn all) skip
                            (skip + JS.or_default (query_limit req) 10)))).
  { rewrite slice_map. apply slice_NoDup. unfold Array_sort.
    apply NoDup_map_sort, Hall. }
  split; [|split; [exact Hnd|]].
  - exists user. split; [reflexivity|]. split; [exact Hall|].
    intros d Hd. apply slice_In in Hd. unfold Array_sort in Hd.
    apply stable_sort_In in Hd. exact Hd.
  - intros i j a b Ha Hb Hab.
    rewrite NoDup_nth_error in Hnd. apply Hnd.
    + rewrite length_map. apply nth_error_Some. congruence.
    + rewrite !nth_error_map, Ha, Hb. simpl. congruence.
Qed.

Lemma unique_ids_sample : unique_ids Sample.st.
Proof.
  unfold unique_ids. simpl.
  repeat (constructor; [simpl; intuition discriminate|]). constructor.
Defined.

Lemma personalized_page_has_no_duplicate_witness :
  unique_ids Sample.st
  /\ exists resp,
       answer (getPersonalizedFeed Sample.env Sample.req) = Some resp
       /\ map doc_id (posts resp) = [106; 105; 104; 103; 102; 101]
       /\ NoDup (map doc_id (posts resp)).
Proof.
  split; [exact unique_ids_sample|].
  eexists. split; [vm_compute; reflexivity|].
  split; [reflexivity|].
  apply (proj2 (personalized_page_has_no_duplicate Sample.env Sample.req _
                  unique_ids_sample ltac:(vm_compute; reflexivity))).
Defined.

(* ================================================================== *)
(** * The answers of the trending and discover routes *)
(* ================================================================== *)

Lemma getTrendingFeed_answer (env : Env) (req : Request) :
  answer (getTrendingFeed env req) =
  let page := JS.or_default (query_page req) 1 in
  let limit := JS.or_default (query_limit req) 10 in
  match aggregate_trendingPosts (store env) (clock env) ((page - 1) * limit) limit with
  | None => None
  | Some trendingPosts =>
      let total := Mongo.size (filter isPublic (Posts (store env))) in
      Some (mkResponse (map (populate_trending (Users (store env))) trendingPosts)
              page (JS.Math_ceil_div total limit) total "trending")
  end.
Proof.
  unfold getTrendingFeed. rewrite answer_bind. cbn [answer await_result snd].
  cbv zeta. destruct (aggregate_trendingPosts _ _ _ _); reflexivity.
Qed.

Lemma getDiscoverFeed_answer (env : Env) (req : Request) :
  answer (getDiscoverFeed env req) =
  let page := JS.or_default (query_page req) 1 in
  let limit := JS.or_default (query_limit req) 10 in
  match Mongo.findById (Users (store env)) (viewer req) with
  | None => None
  | Some user =>
      match aggregate_discoverPosts (store env) (viewer req) (following user)
              ((page - 1) * limit) limit with
      | None => None
      | Some discoverPosts =>
          let total :=
            Mongo.size (filter (match_discoverable (viewer req) (following user))
                               (Posts (store env))) in
          Some (mkResponse (map (populate_discover (Users (store env))) discoverPosts)
                  page (JS.Math_ceil_div total limit) total "discover")
      end
  end.
Proof.
  unfold getDiscoverFeed. rewrite answer_bind. cbn [answer await snd].
  cbv zeta. destruct (Mongo.findById _ _) as [user|]; [|reflexivity].
  rewrite answer_bind. cbn [answer await_result snd].
  destruct (aggregate_discoverPosts _ _ _ _ _); reflexivity.
Qed.

Lemma stage_limit_In {A : Type} (n : Z) (l l' : list A) (x : A) :
  Mongo.stage_limit n l = Some l' -> In x l' -> In x l.
Proof.
  unfold Mongo.stage_limit. destruct (0 <? n); [|discriminate].
  intros [= <-]. apply In_firstn.
Qed.

Lemma stage_skip_In {A : Type} (n : Z) (l l' : list A) (x : A) :
  Mongo.stage_skip n l = Some l' -> In x l' -> In x l.
Proof.
  unfold Mongo.stage_skip. destruct (n <? 0); [discriminate|].
  intros [= <-]. apply In_skipn.
Qed.

Lemma for_each_In {A B : Type} (f : A -> option B) (l : list A) (l' : list B) (y : B) :
  for_each f l = Some l' -> In y l' -> exists x, In x l /\ f x = Some y.
Proof.
  revert l'. induction l as [|x l IH]; simpl; intros l' H Hy.
  - injection H as <-. destruct Hy.
  - destruct (f x) as [y0|] eqn:Ex; [|discriminate].
    destruct (for_each f l) as [ys|]; [|discriminate].
    injection H as <-. destruct Hy as [<-|Hy].
    + exists x. auto.
    + destruct (IH ys eq_refl Hy) as [x' [Hx' Hf]]. exists x'. auto.
Qed.

(** A trending document is built from a public post of the store. *)
Lemma aggregate_trendingPosts_In (st : Store) (now : Date) (skip limit : Z)
    (l : list TrendingDoc) (d : TrendingDoc) :
  aggregate_trendingPosts st now skip limit = Some l -> In d l ->
  In (trending_post d) (Posts st) /\ isPublic (trending_post d) = true
  /\ d = add_finalScore now (trending_post d).
Proof.
  unfold aggregate_trendingPosts. intros H Hd.
  destruct (Mongo.stage_skip _ _) as [l0|] eqn:Es; [|discriminate].
  eapply stage_limit_In in Hd; [|exact H].
  eapply stage_skip_In in Hd; [|exact Es].
  unfold rank_trending, Mongo.sort_descQ in Hd.
  apply stable_sort_In in Hd. apply in_map_iff in Hd.
  destruct Hd as [p [<- Hp]]. apply filter_In in Hp.
  cbn [trending_post add_finalScore]. tauto.
Qed.

(** A discover document is built from a post of the store that passes
    the [$match] of the pipeline. *)
Lemma aggregate_discoverPosts_In (st : Store) (me : ObjectId)
    (followingIds : list ObjectId) (skip limit : Z)
    (l : list DiscoverDoc) (d : DiscoverDoc) :
  aggregate_discoverPosts st me followingIds skip limit = Some l -> In d l ->
  In (discover_post d) (Posts st)
  /\ match_discoverable me followingIds (discover_post d) = true.
Proof.
  unfold aggregate_discoverPosts. intros H Hd.
  destruct (for_each _ _) as [scored|] eqn:Ef; [|discriminate].
  destruct (Mongo.stage_skip _ _) as [l0|] eqn:Es; [|discriminate].
  eapply stage_limit_In in Hd; [|exact H].
  eapply stage_skip_In in Hd; [|exact Es].
  unfold Mongo.sort_descQ2 in Hd. apply stable_sort_In in Hd.
  destruct (for_each_In _ _ _ _ Ef Hd) as [p [Hp Hf]].
  apply filter_In in Hp. unfold add_discoveryScore in Hf.
  destruct (nth_error _ 0); [|discriminate]. injection Hf as <-.
  cbn [discover_post]. exact Hp.
Qed.

(* ================================================================== *)
(** * Visibility *)
(* ================================================================== *)

(** C9. Every item of every page answered by the personalized, the
    trending or the discover route is public or authored by the viewer:
    a private post of another author is never served. *)
Theorem feeds_serve_only_visible_posts (env : Env) (req : Request) :
  (forall resp, answer (getPersonalizedFeed env req) = Some resp ->
     forall d, In d (posts resp) ->
       isPublic (doc_post d) = true \/ author (doc_post d) = viewer req)
  /\ (forall resp, answer (getTrendingFeed env req) = Some resp ->
        forall d, In d (posts resp) ->
          isPublic (trending_post d) = true \/ author (trending_post d) = viewer req)
  /\ (forall resp, answer (getDiscoverFeed env req) = Some resp ->
        forall d, In d (posts resp) ->
          isPublic (discover_post d) = true \/ author (discover_post d) = viewer req).
Proof.
  split; [|split]; intros resp Hresp d Hd; left.
  - rewrite getPersonalizedFeed_answer in Hresp.
    destruct (Mongo.findById _ _) as [user|]; [|discriminate].
    cbv zeta in Hresp. injection Hresp as <-. cbn [posts] in Hd.
    apply slice_In in Hd. unfold Array_sort in Hd. apply stable_sort_In in Hd.
    eapply candidates_public, Hd.
  - rewrite getTrendingFeed_answer in Hresp. cbv zeta in Hresp.
    destruct (aggregate_trendingPosts _ _ _ _) as [l|] eqn:El; [|discriminate].
    injection Hresp as <-. cbn [posts] in Hd.
    apply in_map_iff in Hd. destruct Hd as [x [<- Hx]].
    destruct (aggregate_trendingPosts_In _ _ _ _ _ _ El Hx) as [_ [Hpub _]].
    exact Hpub.
  - rewrite getDiscoverFeed_answer in Hresp. cbv zeta in Hresp.
    destruct (Mongo.findById _ _) as [user|]; [|discriminate].
    destruct (aggregate_discoverPosts _ _ _ _ _) as [l|] eqn:El; [|discriminate].
    injection Hresp as <-. cbn [posts] in Hd.
    apply in_map_iff in Hd. destruct Hd as [x [<- Hx]].
    destruct (aggregate_discoverPosts_In _ _ _ _ _ _ _ El Hx) as [_ Hm].
    unfold match_discoverable in Hm. apply andb_true_iff in Hm.
    cbn [populate_discover discover_post Mongo.populate isPublic]. tauto.
Qed.

Lemma feeds_serve_only_visible_posts_witness :
  (exists resp,
      answer (getPersonalizedFeed Sample.env Sample.req) = Some resp
      /\ posts resp <> []
      /\ forall d, In d (posts resp) ->
           isPublic (doc_post d) = true \/ author (doc_post d) = viewer Sample.req)
  /\ (exists resp,
         answer (getTrendingFeed Sample.env Sample.req) = Some resp
         /\ posts resp <> []
         /\ forall d, In d (posts resp) ->
              isPublic (trending_post d) = true
              \/ author (trending_post d) = viewer Sample.req)
  /\ (exists resp,
         answer (getDiscoverFeed Sample.env Sample.req) = Some resp
         /\ posts resp <> []
         /\ forall d, In d (posts resp) ->
              isPublic (discover_post d) = true
              \/ author (discover_post d) = viewer Sample.req).
Proof.
  pose proof (feeds_serve_only_visible_posts Sample.env Sample.req) as [H1 [H2 H3]].
  split; [|split].
  - eexists. split; [vm_compute; reflexivity|]. split; [discriminate|].
    apply H1. vm_compute. reflexivity.
  - eexists. split; [vm_compute; reflexivity|]. split; [discriminate|].
    apply H2. vm_compute. reflexivity.
  - eexists. split; [vm_compute; reflexivity|]. split; [discriminate|].
    apply H3. vm_compute. reflexivity.
Defined.

(* ================================================================== *)
(** * Pagination of the personalized feed *)
(* ================================================================== *)

Lemma Math_ceil_div_Zdiv (a b : Z) : JS.Math_ceil_div a b = - ((- a) / b).
Proof.
  unfold JS.Math_ceil_div, Qceiling. f_equal.
  rewrite Zdiv_Qdiv. apply Qfloor_comp.
  rewrite inject_Z_opp. unfold Qdiv. ring.
Qed.

(** For a positive page size, [page < Math.ceil(total / limit)] says
    that more than [page * limit] items exist. *)
Lemma lt_Math_ceil_div (p a b : Z) :
  0 < b -> (p < JS.Math_ceil_div a b <-> p * b < a).
Proof.
  intros Hb. rewrite Math_ceil_div_Zdiv.
  pose proof (Z.div_mod (- a) b ltac:(lia)) as Hdm.
  pose proof (Z.mod_pos_bound (- a) b Hb) as Hm.
  split; intros H; nia.
Qed.

Lemma or_default_Some (z d : Z) : z <> 0 -> JS.or_default (Some z) d = z.
Proof.
  intros H. unfold JS.or_default. destruct (z =? 0) eqn:E; [|reflexivity].
  apply Z.eqb_eq in E. contradiction.
Qed.

Lemma size_nonneg {A : Type} (l : list A) : 0 <= Mongo.size l.
Proof. unfold Mongo.size. lia. Qed.

(** A page of positive size [L] at a position [k >= 0] of a list. *)
Lemma page_nonempty_iff {A : Type} (l : list A) (k L : Z) :
  0 <= k -> 1 <= L ->
  (JS.slice l k (k + L) <> [] <-> k < Mongo.size l).
Proof.
  intros Hk HL. rewrite slice_nonneg by lia. unfold Mongo.size.
  replace (k + L - k) with L by lia.
  split.
  - intros H. destruct (Z.lt_ge_cases k (Z.of_nat (List.length l))) as [|Hge];
      [assumption|].
    exfalso. apply H. rewrite skipn_all2 by lia. apply firstn_nil.
  - intros H E. apply (f_equal (@List.length A)) in E.
    rewrite length_firstn, length_skipn in E. simpl in E. lia.
Qed.

Lemma NoDup_app_disjoint {A : Type} (l1 l2 : list A) (x : A) :
  NoDup (l1 ++ l2) -> In x l1 -> In x l2 -> False.
Proof.
  induction l1 as [|y l1 IH]; simpl; intros Hnd H1 H2; [destruct H1|].
  inversion Hnd as [|? ? Hy Hrest]; subst.
  destruct H1 as [->|H1].
  - apply Hy, in_or_app. right. exact H2.
  - exact (IH Hrest H1 H2).
Qed.

(** Two consecutive pages of a list without duplicates share nothing. *)
Lemma consecutive_pages_disjoint {A : Type} (l : list A) (k L : Z) (x : A) :
  0 <= k -> 1 <= L -> NoDup l ->
  In x (JS.slice l k (k + L)) -> In x (JS.slice l (k + L) (k + L + L)) -> False.
Proof.
  intros Hk HL Hnd H1 H2.
  rewrite slice_nonneg in H1, H2 by lia.
  replace (k + L - k) with L in H1 by lia.
  replace (k + L + L - (k + L)) with L in H2 by lia.
  apply In_firstn in H2.
  replace (Z.to_nat (k + L)) with (Z.to_nat L + Z.to_nat k)%nat in H2 by lia.
  rewrite <- skipn_skipn in H2.
  apply (NoDup_skipn (Z.to_nat k)) in Hnd.
  rewrite <- (firstn_skipn (Z.to_nat L) (skipn (Z.to_nat k) l)) in Hnd.
  exact (NoDup_app_disjoint _ _ x Hnd H1 H2).
Qed.

(** The list that the personalized route paginates. *)
Lemma personalized_page_of (env : Env) (me : ObjectId) (P L : Z)
    (r : Response FeedDoc) :
  P <> 0 -> L <> 0 ->
  answer (getPersonalizedFeed env (mkRequest me (Some P) (Some L))) = Some r ->
  exists user,
    Mongo.findById (Users (store env)) me = Some user
    /\ let sorted :=
         Array_sort comparefn
           (candidates (store env) me (followingIds_of (store env) user) L) in
       posts r = JS.slice sorted ((P - 1) * L) ((P - 1) * L + L)
       /\ totalPosts r = Mongo.size sorted
       /\ totalPages r = JS.Math_ceil_div (Mongo.size sorted) L
       /\ currentPage r = P.
Proof.
  intros HP HL Hr. rewrite getPersonalizedFeed_answer in Hr.
  cbn [viewer query_page query_limit] in Hr.
  rewrite !or_default_Some in Hr by assumption.
  destruct (Mongo.findById _ _) as [user|]; [|discriminate].
  cbv zeta in Hr. injection Hr as <-. exists user. cbn. auto.
Qed.

(** C4. For a page [P >= 1] of size [L >= 1] of the personalized feed
    over an unchanged store with distinct [_id]s: [hasMore], which the
    client derives as [page < totalPages], is true exactly when the
    number of assembled candidates exceeds [P * L]; pages [P] and
    [P + 1] share no item; and at a non-empty page [hasMore] is false
    exactly when every later page is empty, that is at the last
    non-empty page. *)
Theorem personalized_pagination_hasMore_and_disjoint_pages
    (env env' : Env) (me : ObjectId) (P L : Z) (r r' : Response FeedDoc) :
  store env' = store env ->
  unique_ids (store env) ->
  1 <= P -> 1 <= L ->
  answer (getPersonalizedFeed env (mkRequest me (Some P) (Some L))) = Some r ->
  answer (getPersonalizedFeed env' (mkRequest me (Some (P + 1)) (Some L))) = Some r' ->
  (exists user,
      Mongo.findById (Users (store env)) me = Some user
      /\ totalPosts r =
         Mongo.size (candidates (store env) me (followingIds_of (store env) user) L))
  /\ (hasMore P r = true <-> P * L < totalPosts r)
  /\ (forall a b, In a (posts r) -> In b (posts r') -> doc_id a <> doc_id b)
  /\ (posts r <> [] ->
      (hasMore P r = false <->
       forall env'' P' r'',
         store env'' = store env -> P < P' ->
         answer (getPersonalizedFeed env'' (mkRequest me (Some P') (Some L)))
         = Some r'' ->
         posts r'' = [])).
Proof.
  intros Hst Huniq HP HL Hr Hr'.
  destruct (personalized_page_of env me P L r ltac:(lia) ltac:(lia) Hr)
    as [user [Huser Hpage]].
  destruct (personalized_page_of env' me (P + 1) L r' ltac:(lia) ltac:(lia) Hr')
    as [user' [Huser' Hpage']].
  rewrite Hst in Huser', Hpage'. rewrite Huser in Huser'. injection Huser' as <-.
  cbv zeta in Hpage, Hpage'.
  set (sorted := Array_sort comparefn
                   (candidates (store env) me (followingIds_of (store env) user) L))
    in *.
  destruct Hpage as [Hposts [Htotal [Hpages _]]].
  destruct Hpage' as [Hposts' _].
  assert (Hmore : hasMore P r = true <-> P * L < totalPosts r).
  { unfold hasMore. rewrite Z.ltb_lt, Hpages, Htotal. apply lt_Math_ceil_div. lia. }
  assert (Hnd : NoDup (map doc_id sorted)).
  { unfold sorted, Array_sort. apply NoDup_map_sort, candidates_NoDup, Huniq. }
  split; [|split; [exact Hmore | split]].
  - exists user. split; [exact Huser|]. rewrite Htotal. unfold sorted, Array_sort, Mongo.size.
    rewrite stable_sort_length. reflexivity.
  - intros a b Ha Hb Hab.
    rewrite Hposts in Ha. rewrite Hposts' in Hb.
    apply (in_map doc_id) in Ha. apply (in_map doc_id) in Hb.
    rewrite slice_map in Ha, Hb. rewrite <- Hab in Hb.
    replace ((P + 1 - 1) * L) with ((P - 1) * L + L) in Hb by lia.
    apply (consecutive_pages_disjoint (map doc_id sorted) ((P - 1) * L) L (doc_id a));
      try assumption; nia.
  - intros Hne. rewrite Hposts in Hne.
    apply page_nonempty_iff in Hne; [|nia|lia].
    assert (Hfalse : hasMore P r = false <-> totalPosts r <= P * L).
    { unfold hasMore. rewrite Z.ltb_ge, Hpages, Htotal.
      pose proof (lt_Math_ceil_div P (Mongo.size sorted) L ltac:(lia)). lia. }
    rewrite Hfalse, Htotal. split.
    + intros Hle env'' P' r'' Hst'' HP' Hr''.
      destruct (personalized_page_of env'' me P' L r'' ltac:(lia) ltac:(lia) Hr'')
        as [user'' [Huser'' [Hposts'' _]]].
      rewrite Hst'' in Huser'', Hposts''. rewrite Huser in Huser''.
      injection Huser'' as <-. fold sorted in Hposts''.
      rewrite Hposts''. apply slice_beyond. fold (Mongo.size sorted). nia.
    + intros Hall. specialize (Hall env' (P + 1) r' Hst ltac:(lia) Hr').
      rewrite Hposts' in Hall.
      destruct (Z.le_gt_cases (Mongo.size sorted) (P * L)) as [|Hgt]; [assumption|].
      exfalso.
      assert (Hne' : JS.slice sorted ((P + 1 - 1) * L) ((P + 1 - 1) * L + L) <> []).
      { apply page_nonempty_iff; nia. }
      exact (Hne' Hall).
Qed.

Lemma personalized_pagination_hasMore_and_disjoint_pages_witness :
  unique_ids Sample.st
  /\ exists r r',
       answer (getPersonalizedFeed Sample.env (mkRequest 1 (Some 2) (Some 1)))
       = Some r
       /\ answer (getPersonalizedFeed (mkEnv Sample.st 0)
                    (mkRequest 1 (Some (2 + 1)) (Some 1)))
          = Some r'
       /\ map doc_id (posts r) = [102]
       /\ map doc_id (posts r') = [101]
       /\ (hasMore 2 r = true <-> 2 * 1 < totalPosts r)
       /\ (forall a b, In a (posts r) -> In b (posts r') -> doc_id a <> doc_id b).
Proof.
  split; [exact unique_ids_sample|].
  eexists. eexists.
  split; [vm_compute; reflexivity|].
  split; [vm_compute; reflexivity|].
  split; [reflexivity|].
  split; [reflexivity|].
  pose proof (personalized_pagination_hasMore_and_disjoint_pages
                Sample.env (mkEnv Sample.st 0) 1 2 1 _ _
                eq_refl unique_ids_sample ltac:(lia) ltac:(lia)
                ltac:(vm_compute; reflexivity) ltac:(vm_compute; reflexivity))
    as [_ [H1 [H2 _]]].
  split; [exact H1 | exact H2].
Defined.

(* ================================================================== *)
(** * The number of slots for followed posts *)
(* ================================================================== *)

(** Rounding to 53 bits moves a positive integer by at most 2^-53 of
    its value. *)
Lemma round53_close (p : Z) :
  0 < p -> 2 ^ 53 * Z.abs (JS.round53 p - p) <= p.
Proof.
  intros Hp. unfold JS.round53.
  destruct (Z.log2 p + 1 - 53 <=? 0) eqn:Es.
  - replace (p - p) with 0 by lia. simpl. lia.
  - apply Z.leb_gt in Es.
    set (s := Z.log2 p + 1 - 53) in *.
    rewrite !Z.shiftl_mul_pow2 by lia. rewrite Z.shiftr_div_pow2 by lia.
    rewrite Z.mul_1_l.
    assert (Hpow : 2 ^ s = 2 * 2 ^ (s - 1)).
    { replace s with (Z.succ (s - 1)) at 1 by lia. apply Z.pow_succ_r. lia. }
    assert (Hhalf : 0 < 2 ^ (s - 1)) by (apply Z.pow_pos_nonneg; lia).
    assert (Hlog : 2 ^ 53 * 2 ^ (s - 1) <= p).
    { rewrite <- Z.pow_add_r by lia.
      replace (53 + (s - 1)) with (Z.log2 p) by lia.
      apply Z.log2_spec. exact Hp. }
    pose proof (Z.div_mod p (2 ^ s) ltac:(lia)) as Hdm.
    pose proof (Z.mod_pos_bound p (2 ^ s) ltac:(lia)) as Hm.
    set (q := p / 2 ^ s) in *. set (r := p mod 2 ^ s) in *.
    replace (p - q * 2 ^ s) with r by lia.
    set (half := 2 ^ (s - 1)) in *.
    destruct ((half <? r) || ((half =? r) && Z.odd q)) eqn:Eup.
    + assert (half <= r).
      { apply orb_true_iff in Eup. destruct Eup as [E|E].
        - apply Z.ltb_lt in E. lia.
        - apply andb_true_iff in E. destruct E as [E _]. apply Z.eqb_eq in E. lia. }
      replace ((q + 1) * 2 ^ s - p) with (2 ^ s - r) by lia.
      rewrite Z.abs_eq by lia. lia.
    + assert (r <= half).
      { apply orb_false_iff in Eup. destruct Eup as [E _].
        apply Z.ltb_ge in E. exact E. }
      replace (q * 2 ^ s - p) with (- r) by lia.
      rewrite Z.abs_neq by lia. lia.
Qed.

(** From a page size of 2 on, at least one slot and at most [limit]
    slots go to followed posts. *)
Lemma graphSlots_bounds (limit : Z) :
  2 <= limit -> 1 <= graphSlots limit <= limit.
Proof.
  intros HL. unfold graphSlots, JS.Math_floor, JS.times_0_7, Qfloor.
  rewrite Z.sgn_pos by lia. rewrite Z.abs_eq by lia. rewrite Z.mul_1_l.
  assert (Hp : 0 < limit * JS.m07) by (unfold JS.m07; lia).
  pose proof (round53_close _ Hp) as Hc.
  set (x := JS.round53 (limit * JS.m07)) in *.
  change (Z.pos (2 ^ 53)) with (2 ^ 53).
  unfold JS.m07 in *.
  assert (H53 : 2 ^ 53 = 9007199254740992) by reflexivity.
  rewrite H53 in *.
  split.
  - apply Z.div_le_lower_bound; lia.
  - apply Z.lt_succ_r. apply Z.div_lt_upper_bound; lia.
Qed.

Lemma times_0_7_agrees_with_SpecFloat :
  forallb (fun n => Qeq_bool (JS.times_0_7 (Z.pos n)) (times_0_7_SpecFloat n))
          (map Pos.of_nat (seq 1 400)
             ++ [1000; 4096; 65535; 1234567; 4294967296; 9007199254740991]%positive)
  = true.
Proof. vm_compute. reflexivity. Qed.

Lemma graphSlots_examples :
  map graphSlots [1; 2; 3; 10; 20; 90; 100] = [0; 1; 2; 7; 14; 62; 70].
Proof. vm_compute. reflexivity. Qed.

(* ================================================================== *)
(** * The size of the candidate list *)
(* ================================================================== *)

Lemma size_app {A : Type} (l1 l2 : list A) :
  Mongo.size (l1 ++ l2) = Mongo.size l1 + Mongo.size l2.
Proof. unfold Mongo.size. rewrite length_app. lia. Qed.

Lemma size_map {A B : Type} (f : A -> B) (l : list A) :
  Mongo.size (map f l) = Mongo.size l.
Proof. unfold Mongo.size. rewrite length_map. reflexivity. Qed.

Lemma size_firstn {A : Type} (n : Z) (l : list A) :
  0 <= n -> Mongo.size (firstn (Z.to_nat n) l) = Z.min n (Mongo.size l).
Proof. intros H. unfold Mongo.size. rewrite length_firstn. lia. Qed.

Lemma size_sort {A : Type} (after : A -> A -> bool) (l : list A) :
  Mongo.size (stable_sort after l) = Mongo.size l.
Proof. unfold Mongo.size. rewrite stable_sort_length. reflexivity. Qed.

(** A positive [limit] on the cursor bounds the followed posts. *)
Lemma find_followingPosts_size (st : Store) (followingIds : list ObjectId) (n : Z) :
  1 <= n ->
  Mongo.size (find_followingPosts st followingIds n)
  = Z.min n (Mongo.size
               (filter (fun p => Mongo.mem (author p) followingIds && isPublic p)
                       (Posts st))).
Proof.
  intros Hn. unfold find_followingPosts, Mongo.cursor_limit.
  destruct (n =? 0) eqn:E; [apply Z.eqb_eq in E; lia|].
  rewrite size_map. rewrite Z.abs_eq by lia. rewrite size_firstn by lia.
  unfold Mongo.sort_desc. rewrite size_sort. reflexivity.
Qed.

(** With [limit(0)] the cursor has no limit: every public post of a
    followed author is fetched. *)
Lemma find_followingPosts_size_0 (st : Store) (followingIds : list ObjectId) :
  Mongo.size (find_followingPosts st followingIds 0)
  = Mongo.size (filter (fun p => Mongo.mem (author p) followingIds && isPublic p)
                       (Posts st)).
Proof.
  unfold find_followingPosts, Mongo.cursor_limit. simpl.
  rewrite size_map. unfold Mongo.sort_desc. apply size_sort.
Qed.

Lemma liked_part_size (st : Store) (me : ObjectId) (followingIds : list ObjectId)
    (fp : list FeedDoc) (n : Z) :
  0 <= n -> Mongo.size (liked_part st me followingIds fp n) <= n.
Proof.
  intros Hn. unfold liked_part. rewrite size_map. rewrite size_firstn by exact Hn.
  apply Z.le_min_l.
Qed.

(** At most [recommendedPostsCount] posts are recommended. *)
Lemma recommended_size (st : Store) (me : ObjectId) (followingIds : list ObjectId)
    (fp : list FeedDoc) (n : Z) :
  Mongo.size (recommended st me followingIds fp n) <= Z.max 0 n.
Proof.
  unfold recommended. destruct (0 <? n) eqn:En;
    [|unfold Mongo.size; simpl List.length; lia].
  apply Z.ltb_lt in En.
  pose proof (liked_part_size st me followingIds fp n ltac:(lia)) as Hl.
  destruct (_ <? n) eqn:Ec; [|lia].
  apply Z.ltb_lt in Ec. rewrite size_app. unfold popular_part.
  rewrite size_map. rewrite size_firstn by lia. lia.
Qed.

(** From a page size of 2 on, at most [limit] candidates are assembled. *)
Lemma candidates_at_most_limit (st : Store) (me : ObjectId)
    (followingIds : list ObjectId) (limit : Z) :
  2 <= limit -> Mongo.size (candidates st me followingIds limit) <= limit.
Proof.
  intros HL. unfold candidates. rewrite size_app.
  pose proof (graphSlots_bounds limit HL) as Hg.
  pose proof (find_followingPosts_size st followingIds (graphSlots limit) ltac:(lia))
    as Hfp.
  set (fp := find_followingPosts st followingIds (graphSlots limit)) in *.
  pose proof (recommended_size st me followingIds fp (limit - Mongo.size fp)).
  lia.
Qed.

(** From a page size of 2 on, every page after the first is empty and
    the route reports at most one page. *)
Lemma personalized_later_pages_empty (env : Env) (me : ObjectId) (P L : Z)
    (r : Response FeedDoc) :
  2 <= L -> 2 <= P ->
  answer (getPersonalizedFeed env (mkRequest me (Some P) (Some L))) = Some r ->
  posts r = [] /\ totalPages r <= 1 /\ totalPosts r <= L.
Proof.
  intros HL HP Hr.
  destruct (personalized_page_of env me P L r ltac:(lia) ltac:(lia) Hr)
    as [user [_ Hpage]].
  cbv zeta in Hpage. destruct Hpage as [Hposts [Htotal [Hpages _]]].
  assert (Hsize : Mongo.size
                    (Array_sort comparefn
                       (candidates (store env) me (followingIds_of (store env) user) L))
                  <= L).
  { unfold Array_sort. rewrite size_sort. apply candidates_at_most_limit, HL. }
  split; [|split].
  - rewrite Hposts. apply slice_beyond. fold (Mongo.size
      (Array_sort comparefn
         (candidates (store env) me (followingIds_of (store env) user) L))). nia.
  - rewrite Hpages.
    pose proof (lt_Math_ceil_div 1 (Mongo.size
      (Array_sort comparefn
         (candidates (store env) me (followingIds_of (store env) user) L))) L
      ltac:(lia)). lia.
  - rewrite Htotal. exact Hsize.
Qed.

(** C10. At page size 1 the claim fails: [Math.floor(1 * 0.7)] is 0 and
    [limit(0)] puts no limit on the followed posts, so user 1 of the
    sample store gets three candidates, a second page that is not
    empty, and three pages in all. *)
Theorem personalized_second_page_at_limit_1 :
  graphSlots 1 = 0
  /\ exists r,
       answer (getPersonalizedFeed Sample.env (mkRequest 1 (Some 2) (Some 1)))
       = Some r
       /\ map doc_id (posts r) = [102]
       /\ totalPosts r = 3
       /\ totalPages r = 3.
Proof.
  split; [reflexivity|].
  eexists. split; [vm_compute; reflexivity|]. repeat split.
Qed.

(* ================================================================== *)
(** * Pagination parameters are not validated *)
(* ================================================================== *)

(** C5, refuted as stated: a request with [page=0] and [limit=0], and a
    request with [page=-1], are not rejected; the store is called and a
    page is answered. *)
Lemma pagination_below_range_is_served :
  (let m := getPersonalizedFeed Sample.env (mkRequest 1 (Some 0) (Some 0)) in
   calls m = [User_findById 1; Post_find; Post_aggregate; Post_populate;
              Post_aggregate; Post_populate]
   /\ exists r, answer m = Some r /\ currentPage r = 1
                /\ map doc_id (posts r) = [106; 105; 104; 103; 102; 101])
  /\ (let m := getPersonalizedFeed Sample.env (mkRequest 1 (Some (-1)) (Some 10)) in
      calls m <> []
      /\ exists r, answer m = Some r /\ currentPage r = -1 /\ totalPosts r = 6)
  /\ (let m := getTrendingFeed Sample.env (mkRequest 1 (Some 0) (Some 0)) in
      calls m = [Post_aggregate; Post_populate; Post_countDocuments]
      /\ exists r, answer m = Some r /\ currentPage r = 1 /\ totalPosts r = 7)
  /\ (let m := getDiscoverFeed Sample.env (mkRequest 1 (Some 0) (Some 0)) in
      calls m = [User_findById 1; Post_aggregate; Post_populate; Post_countDocuments]
      /\ exists r, answer m = Some r /\ currentPage r = 1 /\ totalPosts r = 3).
Proof.
  repeat split; try (vm_compute; discriminate);
    try (eexists; split; [vm_compute; reflexivity | split; reflexivity]).
Qed.

Lemma calls_await_bind {A B : Type} (c : StoreCall) (v : A) (k : A -> Async B) :
  exists rest, calls (bind (await c v) k) = c :: rest.
Proof.
  unfold await, bind. destruct (k v) as [t r]. exists t. reflexivity.
Qed.

Lemma calls_await_result_bind {A B : Type} (c : StoreCall) (v : option A)
    (k : A -> Async B) :
  exists rest, calls (bind (await_result c v) k) = c :: rest.
Proof.
  unfold await_result, bind. destruct v as [a|].
  - destruct (k a) as [t r]. exists t. reflexivity.
  - exists []. reflexivity.
Qed.

(** C5, amended. No route validates its pagination parameters: a page
    that parses to [NaN] or 0 counts as page 1 and a page size that
    parses to [NaN] or 0 counts as 10; every request, whatever its page
    and page size, begins with a call to the store; and the personalized
    route answers a page for every page and page size, failing only when
    the viewer's document is missing. *)
Theorem pagination_defaults_and_no_upfront_rejection (env : Env) (req : Request) :
  (forall d, JS.or_default None d = d /\ JS.or_default (Some 0) d = d)
  /\ (forall v l,
        getPersonalizedFeed env (mkRequest v (Some 0) l)
        = getPersonalizedFeed env (mkRequest v (Some 1) l)
        /\ getTrendingFeed env (mkRequest v (Some 0) l)
           = getTrendingFeed env (mkRequest v (Some 1) l)
        /\ getDiscoverFeed env (mkRequest v (Some 0) l)
           = getDiscoverFeed env (mkRequest v (Some 1) l))
  /\ (forall v p,
        getPersonalizedFeed env (mkRequest v p (Some 0))
        = getPersonalizedFeed env (mkRequest v p (Some 10))
        /\ getTrendingFeed env (mkRequest v p (Some 0))
           = getTrendingFeed env (mkRequest v p (Some 10))
        /\ getDiscoverFeed env (mkRequest v p (Some 0))
           = getDiscoverFeed env (mkRequest v p (Some 10)))
  /\ (exists rest, calls (getPersonalizedFeed env req)
                   = User_findById (viewer req) :: rest)
  /\ (exists rest, calls (getTrendingFeed env req) = Post_aggregate :: rest)
  /\ (exists rest, calls (getDiscoverFeed env req)
                   = User_findById (viewer req) :: rest)
  /\ (answer (getPersonalizedFeed env req) = None
      <-> Mongo.findById (Users (store env)) (viewer req) = None).
Proof.
  split; [intros d; split; reflexivity|].
  split; [intros v l; repeat split; reflexivity|].
  split; [intros v p; repeat split; reflexivity|].
  split; [apply calls_await_bind|].
  split; [apply calls_await_result_bind|].
  split; [apply calls_await_bind|].
  rewrite getPersonalizedFeed_answer.
  destruct (Mongo.findById _ _); split; intros H; try reflexivity; discriminate.
Qed.

Lemma pagination_defaults_and_no_upfront_rejection_witness :
  Mongo.findById (Users (store Sample.env)) (viewer Sample.req) <> None
  /\ answer (getPersonalizedFeed Sample.env Sample.req) <> None.
Proof.
  split; [discriminate|].
  intros H.
  apply (proj2 (proj2 (proj2 (proj2 (proj2 (proj2
           (pagination_defaults_and_no_upfront_rejection Sample.env Sample.req)))))))
    in H.
  discriminate H.
Defined.

(* ================================================================== *)
(** * The trending feed *)
(* ================================================================== *)

Lemma rank_trending_perm (st : Store) (now : Date) :
  Permutation (map trending_post (rank_trending st now))
              (filter isPublic (Posts st)).
Proof.
  unfold rank_trending, Mongo.sort_descQ.
  eapply perm_trans; [apply Permutation_map, stable_sort_perm|].
  rewrite map_map. cbn [trending_post add_finalScore]. rewrite map_id.
  apply Permutation_refl.
Qed.

Lemma rank_trending_length (st : Store) (now : Date) :
  List.length (rank_trending st now) = List.length (filter isPublic (Posts st)).
Proof.
  unfold rank_trending, Mongo.sort_descQ.
  rewrite stable_sort_length, length_map. reflexivity.
Qed.

(** In a list sorted by descending score, an item with a strictly
    higher score stands at an earlier position. *)
Lemma higher_score_stands_earlier {A : Type} (score : A -> Q) (l : list A)
    (i j : nat) (a b : A) :
  StronglySorted (by_score score) l ->
  nth_error l i = Some a -> nth_error l j = Some b ->
  (score a < score b)%Q -> (j < i)%nat.
Proof.
  intros Hs Ha Hb Hlt.
  destruct (Nat.lt_trichotomy i j) as [Hij|[Hij|Hij]]; [| |exact Hij].
  - exfalso. pose proof (StronglySorted_nth _ _ Hs i j a b Hij Ha Hb) as H.
    unfold by_score in H. lra.
  - exfalso. subst j. rewrite Ha in Hb. injection Hb as <-. lra.
Qed.

Lemma rank_trending_In (st : Store) (now : Date) (d : TrendingDoc) :
  In d (rank_trending st now) ->
  isPublic (trending_post d) = true /\ d = add_finalScore now (trending_post d).
Proof.
  unfold rank_trending, Mongo.sort_descQ. intros H.
  apply stable_sort_In in H. apply in_map_iff in H. destruct H as [p [<- Hp]].
  apply filter_In in Hp. cbn [trending_post add_finalScore]. tauto.
Qed.



(** ** The binary64 score and the exact value of the formula *)

Section FinalScoreError.
Import Binary64.
Local Open Scope Q_scope.

Lemma finalScore_error_bound (E age : Z) :
  (Z.abs E <= 10 ^ 6)%Z -> (Z.abs age <= 10 ^ 13)%Z ->
  Qabs (add (mul (of_int E) (literal (8 # 10)))
            (mul (div (of_int age) (of_int day_ms)) (literal (2 # 10)))
        - ((8 # 10) * inject_Z E + (2 # 10) * (inject_Z age / inject_Z day_ms)))
  <= 1 # 1000000000.
Proof.
  intros HE Ht.
  apply inject_Z_bounds in HE, Ht.
  change (inject_Z (10 ^ 6)) with 1000000 in HE.
  change (inject_Z (10 ^ 13)) with 10000000000000 in Ht.
  remember (literal (8 # 10)) as k8 eqn:Hk8. vm_compute in Hk8.
  remember (literal (2 # 10)) as k2 eqn:Hk2. vm_compute in Hk2.
  remember (of_int day_ms) as d eqn:Hd. vm_compute in Hd.
  subst k8 k2 d.
  assert (R6 : round 1000000 == 1000000) by (vm_compute; reflexivity).
  assert (R5 : round 120000 == 120000) by (vm_compute; reflexivity).
  assert (R4 : round 30000 == 30000) by (vm_compute; reflexivity).
  assert (R13 : round 10000000000000 == 10000000000000) by (vm_compute; reflexivity).
  unfold add, mul, div, of_int.
  destruct (round_bounds _ _ R6 (proj1 HE) (proj2 HE)) as [e1 e2].
  destruct (round_error_bound _ _ (proj1 HE) (proj2 HE)) as [e3 e4].
  set (e := round (inject_Z E)) in *.
  match goal with |- context [e * ?k] => set (k8 := k) in * end.
  assert (a0 : - (1000000) <= e * k8 /\ e * k8 <= 1000000) by (subst k8; split; lra).
  destruct (round_bounds _ _ R6 (proj1 a0) (proj2 a0)) as [a1 a2].
  destruct (round_error_bound _ _ (proj1 a0) (proj2 a0)) as [a3 a4].
  set (a := round (e * k8)) in *.
  destruct (round_bounds _ _ R13 (proj1 Ht) (proj2 Ht)) as [t1 t2].
  destruct (round_error_bound _ _ (proj1 Ht) (proj2 Ht)) as [t3 t4].
  set (t' := round (inject_Z age)) in *.
  assert (Er : t' / (86400000 # 1) == t' * (1 # 86400000))
    by apply (Qdiv_const t' 86400000).
  rewrite (round_comp _ _ Er).
  assert (r0 : - (120000) <= t' * (1 # 86400000) /\ t' * (1 # 86400000) <= 120000)
    by (split; lra).
  destruct (round_bounds _ _ R5 (proj1 r0) (proj2 r0)) as [r1 r2].
  destruct (round_error_bound _ _ (proj1 r0) (proj2 r0)) as [r3 r4].
  set (r := round (t' * _)) in *.
  match goal with |- context [r * ?k] => set (k2 := k) in * end.
  assert (b0 : - (30000) <= r * k2 /\ r * k2 <= 30000) by (subst k2; split; lra).
  destruct (round_bounds _ _ R4 (proj1 b0) (proj2 b0)) as [b1 b2].
  destruct (round_error_bound _ _ (proj1 b0) (proj2 b0)) as [b3 b4].
  set (b := round (r * k2)) in *.
  assert (s0 : - (1030000) <= a + b /\ a + b <= 1030000) by (split; lra).
  destruct (round_error_bound _ _ (proj1 s0) (proj2 s0)) as [s3 s4].
  set (s := round (a + b)) in *.
  change (inject_Z day_ms) with (inject_Z 86400000).
  rewrite (Qdiv_const (inject_Z age) 86400000).
  change (1 # 2 ^ 53) with (1 # 9007199254740992) in *.
  subst k8 k2.
  apply Qabs_case; intros _; lra.
Qed.

Lemma finalScore_exact_grid (now : Date) (p : Post) :
  finalScore_exact now p
  == inject_Z (345600000 * (likeCount p + 2 * commentCount p) + (now - createdAt p))
     / inject_Z 432000000.
Proof.
  unfold finalScore_exact. change (inject_Z day_ms) with (inject_Z 86400000).
  set (E := (likeCount p + 2 * commentCount p)%Z).
  set (age := (now - createdAt p)%Z).
  rewrite (Qdiv_const _ 86400000), (Qdiv_const _ 432000000).
  rewrite inject_Z_plus, !inject_Z_mult.
  change (inject_Z 345600000) with 345600000.
  ring.
Qed.

Lemma finalScore_error (now : Date) (p : Post) :
  (likeCount p + 2 * commentCount p <= 10 ^ 6)%Z ->
  (Z.abs (now - createdAt p) <= 10 ^ 13)%Z ->
  Qabs (finalScore (add_finalScore now p) - finalScore_exact now p) <= 1 # 1000000000.
Proof.
  intros HE Ht. cbn [finalScore add_finalScore]. unfold finalScore_exact.
  replace (engagement p) with (likeCount p + 2 * commentCount p)%Z
    by (unfold engagement, Mongo.size, likeCount, commentCount; lia).
  apply finalScore_error_bound; [|exact Ht].
  unfold likeCount, commentCount in *. lia.
Qed.

(** Within these magnitudes the order of the binary64 scores is an
    order of the exact scores: their exact values are multiples of
    [1 / 432000000], further apart than twice the rounding error. *)
Lemma finalScore_reflects_exact_order (now : Date) (a b : Post) :
  (likeCount a + 2 * commentCount a <= 10 ^ 6)%Z ->
  (Z.abs (now - createdAt a) <= 10 ^ 13)%Z ->
  (likeCount b + 2 * commentCount b <= 10 ^ 6)%Z ->
  (Z.abs (now - createdAt b) <= 10 ^ 13)%Z ->
  finalScore (add_finalScore now b) <= finalScore (add_finalScore now a) ->
  finalScore_exact now b <= finalScore_exact now a.
Proof.
  intros HEa Hta HEb Htb Hle.
  apply Qnot_lt_le. intros Hlt.
  pose proof (finalScore_error now a HEa Hta) as Ha.
  pose proof (finalScore_error now b HEb Htb) as Hb.
  rewrite (finalScore_exact_grid now a) in Hlt, Ha.
  rewrite (finalScore_exact_grid now b) in Hlt, Hb.
  apply grid_gap in Hlt.
  apply Qabs_Qle_condition in Ha, Hb. lra.
Qed.

End FinalScoreError.




(* ================================================================== *)
(** * What a page depends on *)
(* ================================================================== *)

(** The number of items of a trending page and its metadata do not
    depend on the time of the call. *)
Lemma getTrendingFeed_meta (st : Store) (now now' : Date) (req : Request) :
  option_map trending_meta (answer (getTrendingFeed (mkEnv st now) req))
  = option_map trending_meta (answer (getTrendingFeed (mkEnv st now') req)).
Proof.
  rewrite !getTrendingFeed_answer. cbv zeta. cbn [store clock].
  unfold aggregate_trendingPosts, Mongo.stage_skip, Mongo.stage_limit.
  destruct (_ <? 0); [reflexivity|].
  destruct (0 <? _); [|reflexivity].
  cbn [option_map]. unfold trending_meta, Mongo.size.
  cbn [posts currentPage totalPages totalPosts feedType].
  rewrite !length_map, !length_firstn, !length_skipn, !rank_trending_length.
  reflexivity.
Qed.

(** The exact value of the formula at two times of call differs by the
    same amount for every post. *)
Lemma finalScore_exact_shift (now now' : Date) (p : Post) :
  (finalScore_exact now' p
   == finalScore_exact now p + inject_Z (now' - now) / inject_Z 432000000)%Q.
Proof.
  unfold finalScore_exact. change (inject_Z day_ms) with (inject_Z 86400000).
  replace (now' - createdAt p) with ((now - createdAt p) + (now' - now)) by lia.
  rewrite (inject_Z_plus (now - createdAt p) (now' - now)).
  rewrite !(Qdiv_const _ 86400000), (Qdiv_const _ 432000000).
  ring.
Qed.

(** Within the magnitudes of [finalScore_reflects_exact_order], a post
    whose exact score, taken at any time, is strictly the higher one
    stands earlier in the ranking. *)
Lemma higher_exact_score_stands_earlier (st : Store) (now now' : Date)
    (i j : nat) (a b : TrendingDoc) :
  nth_error (rank_trending st now') i = Some a ->
  nth_error (rank_trending st now') j = Some b ->
  likeCount (trending_post a) + 2 * commentCount (trending_post a) <= 10 ^ 6 ->
  Z.abs (now' - createdAt (trending_post a)) <= 10 ^ 13 ->
  likeCount (trending_post b) + 2 * commentCount (trending_post b) <= 10 ^ 6 ->
  Z.abs (now' - createdAt (trending_post b)) <= 10 ^ 13 ->
  (finalScore_exact now (trending_post a) < finalScore_exact now (trending_post b))%Q ->
  (j < i)%nat.
Proof.
  intros Ha Hb HEa Hta HEb Htb Hlt.
  assert (Hlt' : (finalScore_exact now' (trending_post a)
                  < finalScore_exact now' (trending_post b))%Q).
  { rewrite (finalScore_exact_shift now now' (trending_post a)).
    rewrite (finalScore_exact_shift now now' (trending_post b)). lra. }
  apply (higher_score_stands_earlier finalScore (rank_trending st now') i j a b
           (sort_descQ_sorted _ _) Ha Hb).
  apply Qnot_le_lt. intros Hle.
  destruct (rank_trending_In _ _ _ (nth_error_In _ _ Ha)) as [_ Ea].
  destruct (rank_trending_In _ _ _ (nth_error_In _ _ Hb)) as [_ Eb].
  rewrite Ea, Eb in Hle.
  pose proof (finalScore_reflects_exact_order now' _ _ HEa Hta HEb Htb Hle) as H.
  lra.
Qed.

(** C6, refuted as stated: two identical trending requests against the
    same store, made a day apart, get different answers, the first item
    being the same post with a different [recencyBoost]; and two
    identical trending requests against another store, made eight hours
    apart, get the same two posts in opposite orders. *)
Lemma trending_answer_changes_with_clock :
  (exists r1 r2 d1 d2,
      answer (getTrendingFeed (mkEnv Sample.st 86400000) Sample.req) = Some r1
      /\ answer (getTrendingFeed (mkEnv Sample.st 172800000) Sample.req) = Some r2
      /\ hd_error (posts r1) = Some d1
      /\ hd_error (posts r2) = Some d2
      /\ trending_post d1 = trending_post d2
      /\ ~ (recencyBoost d1 == recencyBoost d2)%Q
      /\ r1 <> r2)
  /\ (exists r1 r2,
         answer (getTrendingFeed (mkEnv Rounding.flip_store 464400000) Rounding.req)
         = Some r1
         /\ answer (getTrendingFeed (mkEnv Rounding.flip_store 435600000) Rounding.req)
            = Some r2
         /\ map (fun d => post_id (trending_post d)) (posts r1) = [701; 702]
         /\ map (fun d => post_id (trending_post d)) (posts r2) = [702; 701]).
Proof.
  split.
  - eexists. eexists. eexists. eexists.
    split; [vm_compute; reflexivity|].
    split; [vm_compute; reflexivity|].
    split; [reflexivity|].
    split; [reflexivity|].
    split; [reflexivity|].
    split.
    + intros H. vm_compute in H. discriminate H.
    + intros H. discriminate H.
  - eexists. eexists.
    split; [vm_compute; reflexivity|].
    split; [vm_compute; reflexivity|].
    split; reflexivity.
Qed.

Lemma aggregate_trendingPosts_fields (st : Store) (now : Date) (skip limit : Z)
    (l : list TrendingDoc) (d : TrendingDoc) :
  aggregate_trendingPosts st now skip limit = Some l -> In d l ->
  trending_engagementScore d = likeCount (trending_post d)
                               + 2 * commentCount (trending_post d)
  /\ recencyBoost d
     = Binary64.div (Binary64.of_int (now - createdAt (trending_post d)))
                    (Binary64.of_int day_ms)
  /\ finalScore d
     = Binary64.add
         (Binary64.mul (Binary64.of_int (trending_engagementScore d))
                       (Binary64.literal (8 # 10)))
         (Binary64.mul (recencyBoost d) (Binary64.literal (2 # 10))).
Proof.
  intros Hl Hd.
  destruct (aggregate_trendingPosts_In _ _ _ _ _ _ Hl Hd) as [_ [_ E]].
  rewrite E. cbn [trending_engagementScore recencyBoost finalScore trending_post
                  add_finalScore].
  split; [|split; reflexivity].
  unfold engagement, Mongo.size, likeCount, commentCount. lia.
Qed.

(** C6, amended.  The personalized and the discover route compute their
    answer from the store and the request alone.  The trending route
    does not: each of its items carries [recencyBoost] and [finalScore],
    computed in binary64 from the time of the call, and the order of
    its items follows these scores.  What does not depend on the time
    of the call is the number of items of a page, the page metadata,
    and which posts the full ranking holds; and, for posts with an
    engagement up to [10^6] and an age within [10^13] milliseconds, a
    post whose exact score at the time of one call is strictly higher
    than another's stands before it in the ranking of any other call,
    so that only posts with equal exact scores change places. *)
Theorem answers_as_functions_of_store_and_request
    (st : Store) (now now' : Date) (req : Request) :
  getPersonalizedFeed (mkEnv st now) req = getPersonalizedFeed (mkEnv st now') req
  /\ getDiscoverFeed (mkEnv st now) req = getDiscoverFeed (mkEnv st now') req
  /\ option_map trending_meta (answer (getTrendingFeed (mkEnv st now) req))
     = option_map trending_meta (answer (getTrendingFeed (mkEnv st now') req))
  /\ Permutation (map trending_post (rank_trending st now))
                 (map trending_post (rank_trending st now'))
  /\ (forall r d,
        answer (getTrendingFeed (mkEnv st now) req) = Some r ->
        In d (posts r) ->
        recencyBoost d
        = Binary64.div (Binary64.of_int (now - createdAt (trending_post d)))
                       (Binary64.of_int day_ms)
        /\ finalScore d
           = Binary64.add
               (Binary64.mul (Binary64.of_int (trending_engagementScore d))
                             (Binary64.literal (8 # 10)))
               (Binary64.mul (recencyBoost d) (Binary64.literal (2 # 10))))
  /\ (forall (i j : nat) (a b : TrendingDoc),
        nth_error (rank_trending st now') i = Some a ->
        nth_error (rank_trending st now') j = Some b ->
        likeCount (trending_post a) + 2 * commentCount (trending_post a) <= 10 ^ 6 ->
        Z.abs (now' - createdAt (trending_post a)) <= 10 ^ 13 ->
        likeCount (trending_post b) + 2 * commentCount (trending_post b) <= 10 ^ 6 ->
        Z.abs (now' - createdAt (trending_post b)) <= 10 ^ 13 ->
        (finalScore_exact now (trending_post a)
         < finalScore_exact now (trending_post b))%Q ->
        (j < i)%nat).
Proof.
  split; [reflexivity|].
  split; [reflexivity|].
  split; [apply getTrendingFeed_meta|].
  split.
  { eapply perm_trans; [apply rank_trending_perm|].
    apply Permutation_sym, rank_trending_perm. }
  split; [|apply higher_exact_score_stands_earlier].
  intros r d Hr Hd. rewrite getTrendingFeed_answer in Hr. cbv zeta in Hr.
  cbn [store clock] in Hr.
  destruct (aggregate_trendingPosts _ _ _ _) as [l|] eqn:El; [|discriminate].
  injection Hr as <-. cbn [posts] in Hd.
  apply in_map_iff in Hd. destruct Hd as [x [<- Hx]].
  destruct (aggregate_trendingPosts_fields _ _ _ _ _ _ El Hx) as [_ [Hb Hf]].
  cbn [populate_trending recencyBoost finalScore trending_post
       trending_engagementScore Mongo.populate createdAt].
  split; assumption.
Qed.

Lemma answers_as_functions_of_store_and_request_witness :
  (exists r d,
      answer (getTrendingFeed (mkEnv Sample.st 86400000) Sample.req) = Some r
      /\ hd_error (posts r) = Some d
      /\ recencyBoost d
         = Binary64.div (Binary64.of_int (86400000 - createdAt (trending_post d)))
                        (Binary64.of_int day_ms))
  /\ (exists a b,
         nth_error (rank_trending Sample.st 0) 1 = Some a
         /\ nth_error (rank_trending Sample.st 0) 0 = Some b
         /\ (finalScore_exact 86400000%Z (trending_post a)
             < finalScore_exact 86400000%Z (trending_post b))%Q
         /\ (0 < 1)%nat).
Proof.
  pose proof (answers_as_functions_of_store_and_request
                Sample.st 86400000 0 Sample.req) as H.
  split.
  - eexists. eexists.
    split; [vm_compute; reflexivity|].
    split; [reflexivity|].
    refine (proj1 (proj1 (proj2 (proj2 (proj2 (proj2 H)))) _ _
                     ltac:(vm_compute; reflexivity) _)).
    left. reflexivity.
  - eexists. eexists.
    split; [vm_compute; reflexivity|].
    split; [vm_compute; reflexivity|].
    split; [vm_compute; reflexivity|].
    eapply (proj2 (proj2 (proj2 (proj2 (proj2 H)))) 1%nat 0%nat);
      [vm_compute; reflexivity | vm_compute; reflexivity | | | | | vm_compute; reflexivity];
      apply Z.leb_le; vm_compute; reflexivity.
Defined.

(* ================================================================== *)
(** * The co-engagement pipeline *)
(* ================================================================== *)

Lemma findById_resolves (users : list User) (r : ObjectId) :
  (exists u, In u users /\ user_id u = r) ->
  exists u, Mongo.findById users r = Some u /\ user_id u = r.
Proof.
  intros [u [Hu E]]. unfold Mongo.findById.
  destruct (find (fun u0 => user_id u0 =? r) users) as [u'|] eqn:Ef.
  - exists u'. split; [reflexivity|].
    apply find_some in Ef. destruct Ef as [_ Ef]. apply Z.eqb_eq in Ef. exact Ef.
  - exfalso. pose proof (find_none _ _ Ef u Hu) as H. simpl in H.
    apply Z.eqb_neq in H. contradiction.
Qed.

(** When every followed identity names a user document, population
    loses none of them. *)
Lemma followingIds_of_resolvable (st : Store) (user : User) :
  resolvable st (following user) -> followingIds_of st user = following user.
Proof.
  unfold followingIds_of, resolvable, Mongo.populate_users.
  induction (following user) as [|r refs IH]; intros H; [reflexivity|].
  simpl. destruct (findById_resolves (Users st) r (H r (or_introl eq_refl)))
    as [u [-> Eu]].
  simpl. rewrite Eu. f_equal. apply IH. intros r' Hr'. apply H. right. exact Hr'.
Qed.

(** [likedByFollowing] counts the distinct followed identities among
    the likers of the post. *)
Lemma likedByFollowing_counts (st : Store) (followingIds : list ObjectId) (p : Post) :
  resolvable st followingIds ->
  exists S : list ObjectId,
    NoDup S
    /\ (forall u, In u S <-> In u followingIds /\ In u (likes p))
    /\ likedByFollowing (add_likedByFollowing (Users st) followingIds p)
       = Z.of_nat (List.length S).
Proof.
  intros Hres. cbn [likedByFollowing add_likedByFollowing].
  set (S := Mongo.setIntersection _ _). exists S.
  split; [apply NoDup_nodup|]. split; [|reflexivity].
  intros u. unfold S, Mongo.setIntersection.
  rewrite nodup_In, filter_In, mem_true_iff, in_map_iff. split.
  - intros [[usr [E Husr]] HF]. apply filter_In in Husr.
    destruct Husr as [_ Hl]. apply mem_true_iff in Hl. subst u. auto.
  - intros [HF Hl]. split; [|exact HF].
    destruct (Hres u HF) as [usr [Husr E]]. exists usr. split; [exact E|].
    apply filter_In. split; [exact Husr|]. apply mem_true_iff. rewrite E. exact Hl.
Qed.

(** C8. The co-engagement pipeline returns only public posts of the
    store that are authored neither by the viewer nor by a followed
    identity and that at least one followed identity liked; the score
    of a returned post is the number of followed identities who liked
    it, which is never zero; the posts are ordered by descending score,
    ties by descending creation timestamp; and at most the requested
    number is returned. *)
Theorem co_engagement_returns_posts_liked_by_followed
    (st : Store) (me : ObjectId) (user : User) (excluded : list ObjectId)
    (n : Z) (l : list LikedDoc) :
  Mongo.findById (Users st) me = Some user ->
  resolvable st (following user) ->
  aggregate_postsLikedByFollowing st me (followingIds_of st user) excluded n
  = Some l ->
  (forall d, In d l ->
     In (liked_post d) (Posts st)
     /\ isPublic (liked_post d) = true
     /\ author (liked_post d) <> me
     /\ ~ In (author (liked_post d)) (following user)
     /\ (exists u, In u (following user) /\ In u (likes (liked_post d)))
     /\ (exists S : list ObjectId,
           NoDup S
           /\ (forall u, In u S <->
                         In u (following user) /\ In u (likes (liked_post d)))
           /\ likedByFollowing d = Z.of_nat (List.length S))
     /\ 1 <= likedByFollowing d)
  /\ StronglySorted
       (by_keys likedByFollowing (fun d => createdAt (liked_post d))) l
  /\ Mongo.size l <= n.
Proof.
  intros _ Hres Hl. rewrite (followingIds_of_resolvable st user Hres) in Hl.
  unfold aggregate_postsLikedByFollowing in Hl.
  fold (rank_liked st me (following user) excluded) in Hl.
  unfold Mongo.stage_limit in Hl. destruct (0 <? n) eqn:En; [|discriminate].
  apply Z.ltb_lt in En. injection Hl as <-.
  split; [|split].
  - intros d Hd. apply In_firstn in Hd. apply rank_liked_In in Hd.
    destruct Hd as [Hin [Hm [Hd Hpos]]].
    apply match_recommendable_spec in Hm. destruct Hm as [_ [Hme [Hf Hpub]]].
    destruct (likedByFollowing_counts st (following user) (liked_post d) Hres)
      as [S [HS [HSin HSlen]]].
    rewrite <- Hd in HSlen.
    repeat (split; [assumption|]).
    split; [|split; [|lia]].
    + destruct S as [|u S']; [simpl in HSlen; lia|].
      exists u. apply HSin. left. reflexivity.
    + exists S. auto.
  - apply StronglySorted_firstn. unfold rank_liked. apply sort_desc2_sorted.
  - rewrite size_firstn by lia. lia.
Qed.

Lemma co_engagement_returns_posts_liked_by_followed_witness :
  Mongo.findById (Users Sample.st) 1 = Some (mkUser 1 [2; 3] [])
  /\ resolvable Sample.st [2; 3]
  /\ exists l,
       aggregate_postsLikedByFollowing Sample.st 1
         (followingIds_of Sample.st (mkUser 1 [2; 3] [])) [101; 102; 103] 7
       = Some l
       /\ map (fun d => (post_id (liked_post d), likedByFollowing d)) l
          = [(104, 2); (105, 1)]
       /\ StronglySorted
            (by_keys likedByFollowing (fun d => createdAt (liked_post d))) l.
Proof.
  assert (Hres : resolvable Sample.st (following (mkUser 1 [2; 3] []))).
  { intros r [<-|[<-|[]]].
    - exists (mkUser 2 [] [1]). split; [simpl; auto | reflexivity].
    - exists (mkUser 3 [] [1]). split; [simpl; auto | reflexivity]. }
  split; [reflexivity|]. split; [exact Hres|].
  eexists. split; [vm_compute; reflexivity|].
  split; [reflexivity|].
  apply (co_engagement_returns_posts_liked_by_followed
           Sample.st 1 (mkUser 1 [2; 3] []) [101; 102; 103] 7 _
           eq_refl Hres eq_refl).
Defined.

(* ================================================================== *)
(** * The mix of followed and recommended posts *)
(* ================================================================== *)

Lemma NoDup_map_inj {A B : Type} (f : A -> B) (l : list A) (x y : A) :
  NoDup (map f l) -> In x l -> In y l -> f x = f y -> x = y.
Proof.
  induction l as [|z l IH]; simpl; intros Hnd Hx Hy E; [destruct Hx|].
  inversion Hnd as [|? ? Hz Hl]; subst.
  destruct Hx as [->|Hx]; destruct Hy as [->|Hy]; auto.
  - exfalso. apply Hz. rewrite E. apply in_map, Hy.
  - exfalso. apply Hz. rewrite <- E. apply in_map, Hx.
Qed.

(** Excluding the identifiers [E] from a list with distinct identifiers
    removes at most [|E|] elements. *)
Lemma exclude_ids_size {A : Type} (f : A -> ObjectId) (E : list ObjectId)
    (l : list A) :
  NoDup (map f l) ->
  Mongo.size l - Mongo.size E
  <= Mongo.size (filter (fun x => negb (Mongo.mem (f x) E)) l).
Proof.
  intros Hnd. unfold Mongo.size.
  pose proof (filter_length (fun x => Mongo.mem (f x) E) l) as Hlen.
  assert (Hle : (List.length (filter (fun x => Mongo.mem (f x) E) l)
                 <= List.length E)%nat).
  { rewrite <- (length_map f). apply NoDup_incl_length.
    - apply NoDup_map_filter, Hnd.
    - intros i Hi. apply in_map_iff in Hi. destruct Hi as [x [<- Hx]].
      apply filter_In in Hx. apply mem_true_iff. tauto. }
  lia.
Qed.

Lemma filter_ext_in_eq {A : Type} (f g : A -> bool) (l : list A) :
  (forall x, In x l -> f x = g x) -> filter f l = filter g l.
Proof.
  induction l as [|x l IH]; simpl; intros H; [reflexivity|].
  rewrite (H x) by auto. rewrite IH by auto. reflexivity.
Qed.

Lemma mem_app (x : ObjectId) (l1 l2 : list ObjectId) :
  Mongo.mem x (l1 ++ l2) = Mongo.mem x l1 || Mongo.mem x l2.
Proof. unfold Mongo.mem. apply existsb_app. Qed.

Lemma filter_twice {A : Type} (f g : A -> bool) (l : list A) :
  filter f (filter g l) = filter (fun x => g x && f x) l.
Proof.
  induction l as [|x l IH]; simpl; [reflexivity|].
  destruct (g x); simpl; [destruct (f x)|]; rewrite IH; reflexivity.
Qed.

(** The pool of [popularPosts] holds the eligible recommended posts that
    [postsLikedByFollowing] did not take. *)
Lemma popular_pool_size (st : Store) (me : ObjectId) (followingIds : list ObjectId)
    (fp : list FeedDoc) (E : list ObjectId) :
  unique_ids st ->
  (forall d, In d fp ->
     exists p, In p (Posts st) /\ doc_id d = post_id p /\ In (author p) followingIds) ->
  Mongo.size (eligible_recommended st me followingIds) - Mongo.size E
  <= Mongo.size (rank_popular st me followingIds (map doc_id fp ++ E)).
Proof.
  intros Huniq Hfp. unfold rank_popular, Mongo.sort_desc2.
  rewrite size_sort, size_map.
  assert (Heq : filter (match_recommendable me followingIds (map doc_id fp ++ E))
                       (Posts st)
                = filter (fun p => negb (Mongo.mem (post_id p) E))
                         (eligible_recommended st me followingIds)).
  { unfold eligible_recommended. rewrite filter_twice.
    apply filter_ext_in_eq. intros p Hp.
    unfold match_recommendable. simpl (Mongo.mem (post_id p) []). simpl (negb false).
    destruct (negb (Mongo.mem (author p) (me :: followingIds))) eqn:Ea;
      [|rewrite !andb_false_r; reflexivity].
    destruct (isPublic p); [|rewrite !andb_false_r; reflexivity].
    rewrite !andb_true_r. simpl (true && _).
    assert (Hnot : Mongo.mem (post_id p) (map doc_id fp) = false).
    { apply mem_false_iff. intros Hin. apply in_map_iff in Hin.
      destruct Hin as [d [Ed Hd]]. destruct (Hfp d Hd) as [p' [Hp' [Eid Hauth]]].
      assert (p' = p).
      { apply (NoDup_map_inj post_id (Posts st)); try assumption. congruence. }
      subst p'. apply negb_true_iff in Ea. apply mem_false_iff in Ea.
      apply Ea. right. exact Hauth. }
    rewrite mem_app, Hnot. reflexivity. }
  rewrite Heq. apply exclude_ids_size.
  unfold eligible_recommended. apply NoDup_map_filter, Huniq.
Qed.

(** With enough eligible posts the recommended slots are all filled. *)
Lemma recommended_full (st : Store) (me : ObjectId) (followingIds : list ObjectId)
    (fp : list FeedDoc) (n : Z) :
  unique_ids st ->
  (forall d, In d fp ->
     exists p, In p (Posts st) /\ doc_id d = post_id p /\ In (author p) followingIds) ->
  0 <= n ->
  n <= Mongo.size (eligible_recommended st me followingIds) ->
  Mongo.size (recommended st me followingIds fp n) = n.
Proof.
  intros Huniq Hfp Hn Hpool. unfold recommended.
  destruct (0 <? n) eqn:En.
  2:{ apply Z.ltb_ge in En. unfold Mongo.size. simpl List.length. lia. }
  apply Z.ltb_lt in En.
  pose proof (liked_part_size st me followingIds fp n Hn) as Hc.
  set (liked := liked_part st me followingIds fp n) in *.
  destruct (Mongo.size liked <? n) eqn:Ec.
  2:{ apply Z.ltb_ge in Ec. lia. }
  apply Z.ltb_lt in Ec. rewrite size_app. unfold popular_part.
  rewrite size_map. rewrite size_firstn by lia.
  pose proof (popular_pool_size st me followingIds fp (map doc_id liked) Huniq Hfp)
    as Hpop.
  rewrite size_map in Hpop. lia.
Qed.

Lemma filter_graph_origin_followed (st : Store) (followingIds : list ObjectId) (n : Z) :
  filter graph_origin (find_followingPosts st followingIds n)
  = find_followingPosts st followingIds n
  /\ filter recommended_origin (find_followingPosts st followingIds n) = [].
Proof.
  unfold find_followingPosts.
  induction (Mongo.cursor_limit n _) as [|p l [IH1 IH2]]; simpl; [auto|].
  rewrite IH1. unfold recommended_origin in *. simpl. auto.
Qed.

Lemma filter_graph_origin_recommended (st : Store) (me : ObjectId)
    (followingIds : list ObjectId) (fp : list FeedDoc) (n : Z) :
  filter graph_origin (recommended st me followingIds fp n) = []
  /\ filter recommended_origin (recommended st me followingIds fp n)
     = recommended st me followingIds fp n.
Proof.
  assert (H : forall d, In d (recommended st me followingIds fp n) ->
                        graph_origin d = false).
  { intros d Hd. apply recommended_In in Hd.
    destruct Hd as [_ [_ [_ [_ [[x ->]|[x ->]]]]]]; reflexivity. }
  induction (recommended st me followingIds fp n) as [|d l IH]; simpl; [auto|].
  unfold recommended_origin in *. rewrite (H d) by (left; reflexivity). simpl.
  destruct IH as [IH1 IH2]; [intros d' Hd'; apply H; right; exact Hd'|].
  rewrite IH1, IH2. auto.
Qed.

(** From a page size of 2 on, a viewer with enough eligible posts of
    both kinds gets exactly [graphSlots] followed posts and exactly
    [limit - graphSlots] recommended posts. *)
Lemma mix_ratio_from_limit_2 (st : Store) (me : ObjectId)
    (followingIds : list ObjectId) (limit : Z) :
  unique_ids st ->
  2 <= limit ->
  graphSlots limit <= Mongo.size (eligible_followed st followingIds) ->
  limit - graphSlots limit <= Mongo.size (eligible_recommended st me followingIds) ->
  Mongo.size (filter graph_origin (candidates st me followingIds limit))
  = graphSlots limit
  /\ Mongo.size (filter recommended_origin (candidates st me followingIds limit))
     = limit - graphSlots limit.
Proof.
  intros Huniq HL Hf Hr. unfold candidates.
  pose proof (graphSlots_bounds limit HL) as Hg.
  pose proof (find_followingPosts_size st followingIds (graphSlots limit) ltac:(lia))
    as Hfp.
  fold (eligible_followed st followingIds) in Hfp.
  set (fp := find_followingPosts st followingIds (graphSlots limit)) in *.
  assert (Hsize : Mongo.size fp = graphSlots limit) by lia.
  rewrite !filter_app.
  destruct (filter_graph_origin_followed st followingIds (graphSlots limit))
    as [E1 E2].
  destruct (filter_graph_origin_recommended st me followingIds fp
              (limit - Mongo.size fp)) as [E3 E4].
  fold fp in E1, E2. rewrite E1, E2, E3, E4, app_nil_r. simpl.
  split; [exact Hsize|].
  rewrite Hsize. apply recommended_full; try assumption; try lia.
  intros d Hd. apply find_followingPosts_In in Hd.
  destruct Hd as [p [Hp [-> [Ha _]]]]. exists p. auto.
Qed.

(** The slots that the followed posts leave open go to the
    recommendation pipelines. *)
Lemma deficit_goes_to_recommended (st : Store) (me : ObjectId)
    (followingIds : list ObjectId) (limit : Z) :
  2 <= limit ->
  let followingPosts := find_followingPosts st followingIds (graphSlots limit) in
  Mongo.size followingPosts <= graphSlots limit
  /\ candidates st me followingIds limit
     = followingPosts
         ++ recommended st me followingIds followingPosts
              (limit - Mongo.size followingPosts)
  /\ (unique_ids st ->
      limit - Mongo.size followingPosts
      <= Mongo.size (eligible_recommended st me followingIds) ->
      Mongo.size (recommended st me followingIds followingPosts
                    (limit - Mongo.size followingPosts))
      = limit - Mongo.size followingPosts).
Proof.
  intros HL followingPosts.
  pose proof (graphSlots_bounds limit HL) as Hg.
  pose proof (find_followingPosts_size st followingIds (graphSlots limit) ltac:(lia))
    as Hfp.
  fold followingPosts in Hfp.
  split; [lia|]. split; [reflexivity|].
  intros Huniq Hpool. apply recommended_full; try assumption; try lia.
  intros d Hd. apply find_followingPosts_In in Hd.
  destruct Hd as [p [Hp [-> [Ha _]]]]. exists p. auto.
Qed.

(** C2. At page size 1 the claim fails: [graphSlots] is 0 and one slot
    is left for recommendations, the sample store has eligible posts of
    both kinds, but [limit(0)] fetches all three followed posts and no
    recommended post is sourced.  At page size 90 the binary64 product
    [90 * 0.7] lies below 63 and [graphSlots] is 62. *)
Theorem mix_ratio_at_limit_1 :
  let followingIds := followingIds_of Sample.st (mkUser 1 [2; 3] []) in
  let sourced := candidates Sample.st 1 followingIds 1 in
  graphSlots 1 = 0
  /\ 1 - graphSlots 1 = 1
  /\ graphSlots 1 <= Mongo.size (eligible_followed Sample.st followingIds)
  /\ 1 - graphSlots 1 <= Mongo.size (eligible_recommended Sample.st 1 followingIds)
  /\ Mongo.size (filter graph_origin sourced) = 3
  /\ Mongo.size (filter recommended_origin sourced) = 0
  /\ (exists r,
        answer (getPersonalizedFeed Sample.env (mkRequest 1 (Some 1) (Some 1)))
        = Some r
        /\ totalPosts r = 3)
  /\ graphSlots 90 = 62.
Proof.
  cbv zeta. repeat split; try (vm_compute; congruence).
  eexists. split; [vm_compute; reflexivity | reflexivity].
Qed.
